(** * ufds-terror-alert: the Notifier (lib/notifier.js)

    A shallow embedding of the notification dispatcher.  Every handler of
    [Notifier.prototype] is a computation in a small state-and-exception
    monad over the mutable part of the Notifier and of its collaborators
    (row store, mail transport, logger).  Calls to the collaborators are
    recorded as a trace of events, in the order the handler issues them.

    Modelling conventions:
    - a callback handed to the row store or the mail transport is run at
      the place of the call, with the answer of the collaborator; the
      chain of one event runs to its end before the next event starts;
    - a [Date] is its [getTime()] value, a number of milliseconds in [Z];
      [toISOString] followed by [new Date(...)] is the identity on it;
    - a JavaScript exception that leaves a callback is the outcome
      [Throw]: the rest of the handler does not run;
    - every template file named by a handler exists and compiles, so
      [render] itself never throws. *)

From stdpp Require Import gmap strings list fin_maps.
From Stdlib Require Import ZArith Lia.

Local Open Scope string_scope.
Local Open Scope list_scope.

(** ** Data model *)

(** A row of the [users] table, as [select * from users] returns it. *)
Record user_row := UserRow {
  u_uuid : string;
  u_login : string;
  u_email : string;
  u_status : string;
  u_operator : Z;
  u_reader : Z;
  u_roleoper : Z
}.

(** A row of the [keys] table. *)
Record key_row := KeyRow {
  k_uuid : string;
  k_fingerprint : string;
  k_name : string;
  k_comment : string
}.

(** An element of [_.otherLocations]: the columns [uuid, name, comment] of
    a [keys] row, to which [fetchOtherUser] adds [login] and [email]. *)
Record location := Location {
  loc_uuid : string;
  loc_name : string;
  loc_comment : string;
  loc_login : option string;
  loc_email : option string
}.

(** An sshpk key, seen through the two fingerprints the module asks for:
    [key.fingerprint('md5').toString('hex')] and
    [key.fingerprint().toString()]. *)
Record sshkey := SshKey {
  fingerprint_md5_hex : string;
  fingerprint_default : string
}.

(** The [to] field of a mail: one address, or an array of addresses. *)
Inductive rcpt :=
| One (addr : string)
| Many (addrs : list string).

Record mail := Mail {
  mail_from : string;
  mail_to : rcpt;
  mail_subject : string;
  mail_text : string
}.

(** Values of template variables. *)
Inductive tplval :=
| VUndefined
| VStr (s : string)
| VDate (ms : Z)
| VUser (u : user_row)
| VKey (k : sshkey)
| VKeys (ks : list sshkey)
| VKeyRows (rows : list key_row)
| VLocations (locs : list location).

(** The variable object handed to a template: a JavaScript object used as
    a map from names to values. *)
Abbreviation tplargs := (gmap string tplval).

Record Config := {
  cloud_name : string;
  company : string;
  my_email : string;
  operators : rcpt;
  oper_prefix : string;
  user_prefix : string;
  whitelist : option (list string);
  initialSync : bool
}.

(** What a handler does to its collaborators, in order.  [ECallOperatorMail]
    and [ECallUserMail] record an entry into the two mail helpers (whether
    or not the helper then reaches the transport); [ERender] records a call
    of a compiled template with the final variable object. *)
Inductive event :=
| ESendMail (m : mail)
| ELogError (msg : string) (args : list string)
| ELogInfo (msg : string) (args : list string)
| EDbRun (key : string) (value : Z)
| ERender (tpl : string) (args : tplargs)
| ECallOperatorMail (subject text : string)
| ECallUserMail (to : rcpt) (subject text : string).

(** The immutable part of a Notifier: its configuration and the behaviour
    of the injected collaborators.
    - [db_faults n] tells whether the [n]-th lookup of the row store
      (counted from the construction of the Notifier) answers with an error;
    - [mailer m] is the answer of the transport to [sendMail(m, cb)]:
      [inl err] or [inr info.response];
    - [tplDir tpl] is the compiled form of the template file [tpl.ejs]. *)
Record Notifier := {
  config : Config;
  db_faults : nat → bool;
  mailer : mail → string + string;
  tplDir : string → tplargs → string
}.

(** The mutable part: the three tables of the row store, the number of
    lookups issued so far, [this.tplCache] and [this.lastKeyMismatch]. *)
Record state := State {
  db_users : list user_row;
  db_keys : list key_row;
  db_metadata : gmap string Z;
  db_lookups : nat;
  tplCache : gmap string (tplargs → string);
  lastKeyMismatch : option Z
}.

(** The state of [new Notifier(opts)] over a given row store. *)
Definition new_Notifier (us : list user_row) (ks : list key_row)
    (md : gmap string Z) : state :=
  State us ks md 0 ∅ None.

(** ** The monad *)

Inductive outcome (A : Type) :=
| Done (a : A)
| Throw (e : string).
Arguments Done {A} a.
Arguments Throw {A} e.

(** A computation maps a state to its outcome, the state it leaves and the
    events it issued, oldest first. *)
Definition M (A : Type) : Type := state → outcome A * state * list event.

Definition ret {A} (a : A) : M A := λ st, (Done a, st, []).

Definition bind {A B} (k : A → M B) (m : M A) : M B :=
  λ st, match m st with
        | (Done a, st', tr) =>
            match k a st' with
            | (r, st'', tr') => (r, st'', tr ++ tr')
            end
        | (Throw e, st', tr) => (Throw e, st', tr)
        end.

Definition throw {A} (e : string) : M A := λ st, (Throw e, st, []).

(** [x ← m; k] and [m;; k] are stdpp's notations for [bind]. *)
#[global] Instance M_ret : MRet M := @ret.
#[global] Instance M_bind : MBind M := @bind.

Definition gets {A} (f : state → A) : M A := λ st, (Done (f st), st, []).

Definition emit (e : event) : M unit := λ st, (Done tt, st, [e]).

Definition when_ (b : bool) (m : M unit) : M unit :=
  if b then m else ret tt.

(** The outcome, the final state and the events of a computation. *)
Definition result {A} (m : M A) (st : state) : outcome A := (m st).1.1.
Definition exec {A} (m : M A) (st : state) : state := (m st).1.2.
Definition emitted {A} (m : M A) (st : state) : list event := (m st).2.

(** ** The row store *)

(** One lookup: the store answers with an error when the fault schedule
    says so, with [v] otherwise. *)
Definition db_lookup {A} (self : Notifier) (v : state → A) : M (string + A) :=
  λ st,
    let n := db_lookups st in
    let st' := State (db_users st) (db_keys st) (db_metadata st) (S n)
                     (tplCache st) (lastKeyMismatch st) in
    if db_faults self n then (Done (inl "SQLITE_ERROR"), st', [])
    else (Done (inr (v st)), st', []).

(** [db.get('select value from metadata where key = ?', key, cb)] *)
Definition db_get_metadata (self : Notifier) (key : string)
    : M (string + option Z) :=
  db_lookup self (λ st, db_metadata st !! key).

(** [db.get('select * from users where uuid = ?', uuid, cb)]: the first
    matching row, or [undefined]. *)
Definition db_get_user (self : Notifier) (uuid : string)
    : M (string + option user_row) :=
  db_lookup self
    (λ st, List.find (λ r, String.eqb (u_uuid r) uuid) (db_users st)).

Definition location_of (k : key_row) : location :=
  Location (k_uuid k) (k_name k) (k_comment k) None None.

(** [db.all('select uuid, name, comment from keys where fingerprint = ?
    and uuid != ?', fp, uuid, cb)] *)
Definition db_all_keys_by_fingerprint (self : Notifier) (fp uuid : string)
    : M (string + list location) :=
  db_lookup self
    (λ st, map location_of
             (List.filter (λ k, String.eqb (k_fingerprint k) fp
                                && negb (String.eqb (k_uuid k) uuid))
                          (db_keys st))).

(** [db.all('select * from keys where uuid = ?', uuid, cb)] *)
Definition db_all_keys_by_uuid (self : Notifier) (uuid : string)
    : M (string + list key_row) :=
  db_lookup self
    (λ st, List.filter (λ k, String.eqb (k_uuid k) uuid) (db_keys st)).

(** [db.run('insert or replace into metadata (key, value) values (?, ?)',
    key, value)]: an upsert, issued without a callback and taken to be
    done when the next lookup starts. *)
Definition db_run_metadata (key : string) (value : Z) : M unit :=
  λ st, (Done tt,
         State (db_users st) (db_keys st) (<[key := value]> (db_metadata st))
               (db_lookups st) (tplCache st) (lastKeyMismatch st),
         [EDbRun key value]).

(** ** Notifier.prototype.render, operatorMail, userMail *)

Definition render (self : Notifier) (tpl : string) (args : tplargs)
    : M string :=
  λ st,
    let cache :=
      match tplCache st !! tpl with
      | None => <[tpl := tplDir self tpl]> (tplCache st)
      | Some _ => tplCache st
      end in
    let compiled := default (tplDir self tpl) (cache !! tpl) in
    let args' := <["company" := VStr (company (config self))]>
                   (<["cloud_name" := VStr (cloud_name (config self))]> args) in
    (Done (compiled args'),
     State (db_users st) (db_keys st) (db_metadata st) (db_lookups st)
           cache (lastKeyMismatch st),
     [ERender tpl args']).

Definition operatorMail (self : Notifier) (subject text : string) : M unit :=
  emit (ECallOperatorMail subject text);;
  if initialSync (config self) then ret tt
  else
    let m := Mail (my_email (config self)) (operators (config self))
                  (oper_prefix (config self) +:+ subject) text in
    emit (ESendMail m);;
    match mailer self m with
    | inl err => emit (ELogError "failed sending operator mail" [err])
    | inr resp => emit (ELogInfo "sent mail to operators" [subject; resp])
    end.

Definition userMail (self : Notifier) (to : rcpt) (subject text : string)
    : M unit :=
  emit (ECallUserMail to subject text);;
  if initialSync (config self) then ret tt
  else
    let m := Mail (my_email (config self)) to
                  (user_prefix (config self) +:+ subject) text in
    emit (ESendMail m);;
    match mailer self m with
    | inl err =>
        emit (ELogError "failed sending user mail to %j (%s)" [err; subject])
    | inr resp => emit (ELogInfo "sent mail to user" [subject; resp])
    end.

(** ** Notifier.prototype.ufdsKeyMismatch *)

Definition set_lastKeyMismatch (now : Z) : M unit :=
  λ st, (Done tt,
         State (db_users st) (db_keys st) (db_metadata st) (db_lookups st)
               (tplCache st) (Some now),
         []).

(** [last === undefined || now.getTime() - last.getTime() > 4*3600*1000] *)
Definition mismatch_due (last : option Z) (now : Z) : bool :=
  match last with
  | None => true
  | Some l => (4 * 3600 * 1000 <? now - l)%Z
  end.

(** [now] is the value of [new Date()] inside the callback. *)
Definition ufdsKeyMismatch (self : Notifier) (now : Z)
    (expectedFp : string) (newKey : sshkey) : M unit :=
  r ← db_get_metadata self "last_key_mismatch";
  match r with
  | inl err => emit (ELogError "failed reading from db" [err])
  | inr row =>
      mem ← gets lastKeyMismatch;
      let last := match row with Some v => Some v | None => mem end in
      db_run_metadata "last_key_mismatch" now;;
      when_ (mismatch_due last now)
        (text ← render self "ufds-key-mismatch"
                  (<["expectedFp" := VStr expectedFp]>
                     (<["newFp" := VStr (fingerprint_default newKey)]> ∅));
         operatorMail self "UFDS key mismatch" text);;
      set_lastKeyMismatch now
  end.

(** ** The policy predicates of the handlers *)

(** [Array.prototype.indexOf]: the first index of [x], or [-1]. *)
Fixpoint indexOf (l : list string) (x : string) : Z :=
  match l with
  | [] => -1
  | y :: l' =>
      if String.eqb y x then 0
      else let i := indexOf l' x in
           if (i =? -1)%Z then (-1)%Z else (i + 1)%Z
  end.

(** [!self.config.whitelist || self.config.whitelist.length < 1 ||
    self.config.whitelist.indexOf(uuid) !== -1] *)
Definition whitelisted (self : Notifier) (uuid : string) : bool :=
  match whitelist (config self) with
  | None => true
  | Some wl =>
      (Z.of_nat (length wl) <? 1)%Z || negb (indexOf wl uuid =? -1)%Z
  end.

(** [row.status !== 'active'] *)
Definition disabled (row : user_row) : bool :=
  negb (String.eqb (u_status row) "active").

(** [row.operator === 1 || row.reader === 1 || row.roleoper === 1] *)
Definition privileged (row : user_row) : bool :=
  (u_operator row =? 1)%Z || (u_reader row =? 1)%Z || (u_roleoper row =? 1)%Z.

Definition log_db_error (err : string) : M unit :=
  emit (ELogError "failed reading from db" [err]).

(** ** Notifier.prototype.changedLogin *)

Definition changedLogin (self : Notifier) (when : Z)
    (uuid oldLogin newLogin email : string) : M unit :=
  r ← db_get_user self uuid;
  match r with
  | inl err => log_db_error err
  | inr None =>
      emit (ELogError
        "changed login user %s, but they could not be found in the database"
        [uuid])
  | inr (Some row) =>
      when_ (negb (disabled row))
        (text ← render self "changed-login"
                  (<["when" := VDate when]>
                   (<["uuid" := VStr uuid]>
                    (<["oldLogin" := VStr oldLogin]>
                     (<["newLogin" := VStr newLogin]>
                      (<["email" := VStr email]> ∅)))));
         operatorMail self ("Account " +:+ oldLogin +:+ " login name changed")
                      text)
  end.

(** ** Notifier.prototype.changedPassword *)

Definition changedPassword (self : Notifier) (when : Z) (uuid email : string)
    : M unit :=
  r ← db_get_user self uuid;
  match r with
  | inl err => log_db_error err
  | inr None =>
      emit (ELogError
        "operator del from user %s, but they could not be found in the database"
        [uuid])
  | inr (Some row) =>
      text ← render self "pw-changed"
               (<["when" := VDate when]>
                (<["uuid" := VStr uuid]>
                 (<["user" := VUser row]> ∅)));
      when_ (whitelisted self uuid && negb (disabled row))
        (userMail self (One (u_email row)) "Your password has been changed"
                  text);;
      when_ (privileged row)
        (text ← render self "oper-pw-changed"
                  (<["when" := VDate when]>
                   (<["uuid" := VStr uuid]>
                    (<["user" := VUser row]> ∅)));
         operatorMail self ("Password changed for operator " +:+ u_login row)
                      text)
  end.

(** ** Notifier.prototype.changedEmail *)

Definition changedEmail (self : Notifier) (when : Z)
    (uuid oldEmail newEmail : string) : M unit :=
  r ← db_get_user self uuid;
  match r with
  | inl err => log_db_error err
  | inr None =>
      emit (ELogError
        "email change from user %s, but they could not be found in the database"
        [uuid])
  | inr (Some row) =>
      text ← render self "email-changed"
               (<["when" := VDate when]>
                (<["uuid" := VStr uuid]>
                 (<["oldEmail" := VStr oldEmail]>
                  (<["newEmail" := VStr newEmail]>
                   (<["user" := VUser row]> ∅)))));
      when_ (whitelisted self uuid && negb (disabled row))
        (userMail self (Many [oldEmail; newEmail])
                  "Your email address has been changed" text);;
      when_ (privileged row)
        (text ← render self "oper-email-changed"
                  (<["when" := VDate when]>
                   (<["uuid" := VStr uuid]>
                    (<["oldEmail" := VStr oldEmail]>
                     (<["newEmail" := VStr newEmail]>
                      (<["user" := VUser row]> ∅)))));
         operatorMail self ("Operator email change for " +:+ u_login row) text)
  end.

(** ** Notifier.prototype.deletedUser *)

Definition deletedUser (self : Notifier) (when : Z) (uuid : string)
    (user : user_row) : M unit :=
  when_ (privileged user)
    (text ← render self "deleted-operator"
              (<["when" := VDate when]>
               (<["uuid" := VStr uuid]>
                (<["user" := VUser user]> ∅)));
     operatorMail self ("Operator account " +:+ u_login user +:+ " deleted")
                  text).

(** ** vasync.pipeline and vasync.forEachPipeline *)

(** The shared argument [_] of the key-added pipeline, [{}] at the start. *)
Record pipearg := PipeArg {
  pa_user : option user_row;
  pa_otherLocations : option (list location)
}.

(** A stage [function (_, cb)]: [inl err] is [cb(err)], [inr _'] is [cb()]
    with the argument object as the stage left it. *)
Abbreviation stage := (pipearg → M (string + pipearg)).

(** The stages run one after the other; the first error ends the pipeline
    and is handed to the final callback. *)
Fixpoint vasync_pipeline (funcs : list stage) (arg : pipearg)
    : M (option string) :=
  match funcs with
  | [] => mret None
  | f :: rest =>
      r ← f arg;
      match r with
      | inl err => mret (Some err)
      | inr arg' => vasync_pipeline rest arg'
      end
  end.

(** [func] is applied to the inputs in order, each call starting when the
    one before it has called back; the first error ends the loop.  [func]
    updates its input in place, so the result is the list of the updated
    inputs. *)
Fixpoint vasync_forEachPipeline {A} (func : A → M (string + A))
    (inputs : list A) : M (string + list A) :=
  match inputs with
  | [] => mret (inr [])
  | x :: rest =>
      r ← func x;
      match r with
      | inl err => mret (inl err)
      | inr x' =>
          r' ← vasync_forEachPipeline func rest;
          match r' with
          | inl err => mret (inl err)
          | inr rest' => mret (inr (x' :: rest'))
          end
      end
  end.

(** ** Notifier.prototype.addedKey *)

Definition getUser (self : Notifier) (uuid : string) : stage := λ arg,
  r ← db_get_user self uuid;
  match r with
  | inl err => log_db_error err;; mret (inl err)
  | inr None =>
      emit (ELogError
        "added key to user %s, but they could not be found in the database"
        [uuid]);;
      mret (inl "Not Found")
  | inr (Some row) =>
      mret (inr (PipeArg (Some row) (pa_otherLocations arg)))
  end.

Definition findKeys (self : Notifier) (uuid : string) (key : sshkey)
    : stage := λ arg,
  r ← db_all_keys_by_fingerprint self (fingerprint_md5_hex key) uuid;
  match r with
  | inl err => mret (inl err)
  | inr rows => mret (inr (PipeArg (pa_user arg) (Some rows)))
  end.

(** [row.login] on a row that is [undefined] is a TypeError. *)
Definition fetchOtherUser (self : Notifier) (user : location)
    : M (string + location) :=
  r ← db_get_user self (loc_uuid user);
  match r with
  | inl err => mret (inl err)
  | inr None => throw "TypeError: Cannot read property 'login' of undefined"
  | inr (Some row) =>
      mret (inr (Location (loc_uuid user) (loc_name user) (loc_comment user)
                          (Some (u_login row)) (Some (u_email row))))
  end.

Definition getOtherUsers (self : Notifier) : stage := λ arg,
  match pa_otherLocations arg with
  | None => throw "AssertionError: args.inputs (array) is required"
  | Some inputs =>
      r ← vasync_forEachPipeline (fetchOtherUser self) inputs;
      match r with
      | inl err => mret (inl err)
      | inr inputs' => mret (inr (PipeArg (pa_user arg) (Some inputs')))
      end
  end.

Definition added_key_args (when : Z) (uuid : string) (key : sshkey)
    (name : string) (otherKeys : list sshkey) (arg : pipearg) : tplargs :=
  <["when" := VDate when]>
  (<["uuid" := VStr uuid]>
   (<["key" := VKey key]>
    (<["name" := VStr name]>
     (<["keys" := VKeys otherKeys]>
      (<["otherLocations" := from_option VLocations VUndefined
                               (pa_otherLocations arg)]>
       (<["user" := from_option VUser VUndefined (pa_user arg)]> ∅)))))).

Definition sendMail (self : Notifier) (when : Z) (uuid : string)
    (key : sshkey) (name : string) (otherKeys : list sshkey) : stage := λ arg,
  text ← render self "added-key"
           (added_key_args when uuid key name otherKeys arg);
  match pa_user arg with
  | None => throw "TypeError: Cannot read property 'status' of undefined"
  | Some user =>
      when_ (whitelisted self uuid && negb (disabled user))
        (userMail self (One (u_email user))
                  ("New SSH key added to account " +:+ u_login user) text);;
      when_ (privileged user)
        (text ← render self "oper-added-key"
                  (added_key_args when uuid key name otherKeys arg);
         operatorMail self ("SSH key added to operator " +:+ u_login user)
                      text);;
      mret (inr arg)
  end.

Definition addedKey_stages (self : Notifier) (when : Z) (uuid : string)
    (key : sshkey) (name : string) (otherKeys : list sshkey) : list stage :=
  [getUser self uuid; findKeys self uuid key; getOtherUsers self;
   sendMail self when uuid key name otherKeys].

Definition addedKey (self : Notifier) (when : Z) (uuid : string)
    (key : sshkey) (name : string) (otherKeys : list sshkey) : M unit :=
  vasync_pipeline (addedKey_stages self when uuid key name otherKeys)
                  (PipeArg None None);;
  mret tt.

(** ** Notifier.prototype.deletedKey *)

Definition deleted_key_args (when : Z) (uuid : string) (key : sshkey)
    (name : string) (otherKeys : list sshkey) (row : user_row) : tplargs :=
  <["when" := VDate when]>
  (<["uuid" := VStr uuid]>
   (<["key" := VKey key]>
    (<["name" := VStr name]>
     (<["keys" := VKeys otherKeys]>
      (<["user" := VUser row]> ∅))))).

Definition deletedKey (self : Notifier) (when : Z) (uuid : string)
    (key : sshkey) (name : string) (otherKeys : list sshkey) : M unit :=
  r ← db_get_user self uuid;
  match r with
  | inl err => log_db_error err
  | inr None =>
      emit (ELogError
        "deleted key from user %s, but they could not be found in the database"
        [uuid])
  | inr (Some row) =>
      text ← render self "deleted-key"
               (deleted_key_args when uuid key name otherKeys row);
      when_ (whitelisted self uuid && negb (disabled row))
        (userMail self (One (u_email row))
                  ("SSH key deleted from account " +:+ u_login row) text);;
      when_ (privileged row)
        (text ← render self "oper-deleted-key"
                  (deleted_key_args when uuid key name otherKeys row);
         operatorMail self ("SSH key deleted from operator " +:+ u_login row)
                      text)
  end.

(** ** Notifier.prototype.operatorAdded, operatorRemoved and their aliases *)

(** The callback of the [keys] lookup is [function (s_err, rows)]; [s_err]
    is never read, and [rows] is [undefined] when the lookup failed. *)
Definition operatorAdded (self : Notifier) (when : Z) (uuid : string)
    (group : option string) : M unit :=
  let group := default "operator" group in
  r ← db_get_user self uuid;
  match r with
  | inl err => log_db_error err
  | inr None =>
      emit (ELogError
        "operator add from user %s, but they could not be found in the database"
        [uuid])
  | inr (Some row) =>
      rk ← db_all_keys_by_uuid self uuid;
      let rows := match rk with
                  | inl s_err => VUndefined
                  | inr rows => VKeyRows rows
                  end in
      text ← render self "new-operator"
               (<["when" := VDate when]>
                (<["uuid" := VStr uuid]>
                 (<["user" := VUser row]>
                  (<["group" := VStr group]>
                   (<["keys" := rows]> ∅)))));
      operatorMail self ("New operator account " +:+ u_login row) text
  end.

Definition readerAdded (self : Notifier) (when : Z) (uuid : string) : M unit :=
  operatorAdded self when uuid (Some "reader").

Definition roleoperAdded (self : Notifier) (when : Z) (uuid : string)
    : M unit :=
  operatorAdded self when uuid (Some "role-operator").

Definition operatorRemoved (self : Notifier) (when : Z) (uuid : string)
    (group : option string) : M unit :=
  let group := default "operator" group in
  r ← db_get_user self uuid;
  match r with
  | inl err => log_db_error err
  | inr None =>
      emit (ELogError
        "operator del from user %s, but they could not be found in the database"
        [uuid])
  | inr (Some row) =>
      text ← render self "deleted-operator"
               (<["when" := VDate when]>
                (<["uuid" := VStr uuid]>
                 (<["user" := VUser row]>
                  (<["group" := VStr group]> ∅))));
      operatorMail self ("Demoted operator account " +:+ u_login row) text
  end.

Definition readerRemoved (self : Notifier) (when : Z) (uuid : string)
    : M unit :=
  operatorRemoved self when uuid (Some "reader").

Definition roleoperRemoved (self : Notifier) (when : Z) (uuid : string)
    : M unit :=
  operatorRemoved self when uuid (Some "role-operator").

(** ** Notifier.prototype.weirdGroupMemberAdded, weirdGroupMemberRemoved *)

Definition weird_args (when : Z) (dn group err : string) : tplargs :=
  <["when" := VDate when]>
  (<["group" := VStr group]>
   (<["dn" := VStr dn]>
    (<["err" := VStr err]> ∅))).

Definition weirdGroupMemberAdded (self : Notifier) (when : Z) (dn : string)
    (group : option string) (err : string) : M unit :=
  let group := default "operators" group in
  text ← render self "new-weird-group-member" (weird_args when dn group err);
  operatorMail self ("Unknown DN added to group " +:+ group) text.

Definition weirdGroupMemberRemoved (self : Notifier) (when : Z) (dn : string)
    (group : option string) (err : string) : M unit :=
  let group := default "operators" group in
  text ← render self "deleted-weird-group-member"
           (weird_args when dn group err);
  operatorMail self ("Unknown DN removed from group " +:+ group) text.

(** ** Notification events *)

(** One value per call the directory watcher can make on a Notifier. *)
Inductive notification :=
| KeyMismatch (now : Z) (expectedFp : string) (newKey : sshkey)
| LoginChanged (when : Z) (uuid oldLogin newLogin email : string)
| PasswordChanged (when : Z) (uuid email : string)
| EmailChanged (when : Z) (uuid oldEmail newEmail : string)
| UserDeleted (when : Z) (uuid : string) (user : user_row)
| KeyAdded (when : Z) (uuid : string) (key : sshkey) (name : string)
           (otherKeys : list sshkey)
| KeyDeleted (when : Z) (uuid : string) (key : sshkey) (name : string)
             (otherKeys : list sshkey)
| OperatorAdded (when : Z) (uuid : string) (group : option string)
| ReaderAdded (when : Z) (uuid : string)
| RoleoperAdded (when : Z) (uuid : string)
| OperatorRemoved (when : Z) (uuid : string) (group : option string)
| ReaderRemoved (when : Z) (uuid : string)
| RoleoperRemoved (when : Z) (uuid : string)
| WeirdGroupMemberAdded (when : Z) (dn : string) (group : option string)
                        (err : string)
| WeirdGroupMemberRemoved (when : Z) (dn : string) (group : option string)
                          (err : string).

Definition handle (self : Notifier) (n : notification) : M unit :=
  match n with
  | KeyMismatch now fp k => ufdsKeyMismatch self now fp k
  | LoginChanged w u o n e => changedLogin self w u o n e
  | PasswordChanged w u e => changedPassword self w u e
  | EmailChanged w u o n => changedEmail self w u o n
  | UserDeleted w u r => deletedUser self w u r
  | KeyAdded w u k n ks => addedKey self w u k n ks
  | KeyDeleted w u k n ks => deletedKey self w u k n ks
  | OperatorAdded w u g => operatorAdded self w u g
  | ReaderAdded w u => readerAdded self w u
  | RoleoperAdded w u => roleoperAdded self w u
  | OperatorRemoved w u g => operatorRemoved self w u g
  | ReaderRemoved w u => readerRemoved self w u
  | RoleoperRemoved w u => roleoperRemoved self w u
  | WeirdGroupMemberAdded w d g e => weirdGroupMemberAdded self w d g e
  | WeirdGroupMemberRemoved w d g e => weirdGroupMemberRemoved self w d g e
  end.

(** ** Observations on a trace *)

Definition sent_mails (tr : list event) : list mail :=
  omap (λ e, match e with ESendMail m => Some m | _ => None end) tr.

Definition error_logs (tr : list event) : list string :=
  omap (λ e, match e with ELogError msg _ => Some msg | _ => None end) tr.

Definition operator_calls (tr : list event) : list (string * string) :=
  omap (λ e, match e with
             | ECallOperatorMail s t => Some (s, t)
             | _ => None
             end) tr.

Definition user_calls (tr : list event) : list (rcpt * string * string) :=
  omap (λ e, match e with
             | ECallUserMail to s t => Some (to, s, t)
             | _ => None
             end) tr.

Definition renders (tr : list event) : list (string * tplargs) :=
  omap (λ e, match e with ERender tpl a => Some (tpl, a) | _ => None end) tr.

Definition db_runs (tr : list event) : list (string * Z) :=
  omap (λ e, match e with EDbRun k v => Some (k, v) | _ => None end) tr.

(** ** Closed forms used in the statements *)

(** The state after one lookup of the row store. *)
Definition bump (st : state) : state :=
  State (db_users st) (db_keys st) (db_metadata st) (S (db_lookups st))
        (tplCache st) (lastKeyMismatch st).

(** The variable object as [render] completes it. *)
Definition ambient (self : Notifier) (args : tplargs) : tplargs :=
  <["company" := VStr (company (config self))]>
    (<["cloud_name" := VStr (cloud_name (config self))]> args).

(** The compiled template [render] calls for [tpl] in state [st]. *)
Definition compiled (self : Notifier) (st : state) (tpl : string)
    : tplargs → string :=
  default (tplDir self tpl) (tplCache st !! tpl).

(** The state after [render] has seen [tpl]. *)
Definition cached (self : Notifier) (tpl : string) (st : state) : state :=
  State (db_users st) (db_keys st) (db_metadata st) (db_lookups st)
        (match tplCache st !! tpl with
         | None => <[tpl := tplDir self tpl]> (tplCache st)
         | Some _ => tplCache st
         end)
        (lastKeyMismatch st).

(** The message [operatorMail] hands to the transport. *)
Definition operator_message (self : Notifier) (subject text : string) : mail :=
  Mail (my_email (config self)) (operators (config self))
       (oper_prefix (config self) +:+ subject) text.

(** The message [userMail] hands to the transport. *)
Definition user_message (self : Notifier) (to : rcpt) (subject text : string)
    : mail :=
  Mail (my_email (config self)) to (user_prefix (config self) +:+ subject) text.

(** The body of a key-mismatch alert sent from state [st]. *)
Definition mismatch_text (self : Notifier) (st : state) (fp : string)
    (k : sshkey) : string :=
  compiled self (bump st) "ufds-key-mismatch"
    (ambient self (<["expectedFp" := VStr fp]>
                     (<["newFp" := VStr (fingerprint_default k)]> ∅))).

(** The variables and the body of the password-changed user mail. *)
Definition pw_changed_args (self : Notifier) (when : Z) (uuid : string)
    (row : user_row) : tplargs :=
  ambient self (<["when" := VDate when]>
                (<["uuid" := VStr uuid]>
                 (<["user" := VUser row]> ∅))).

Definition pw_changed_text (self : Notifier) (st : state) (when : Z)
    (uuid : string) (row : user_row) : string :=
  compiled self (bump st) "pw-changed" (pw_changed_args self when uuid row).

(** The row the store holds for [uuid]. *)
Definition stored_user (st : state) (uuid : string) : option user_row :=
  List.find (λ r, String.eqb (u_uuid r) uuid) (db_users st).

(** The next lookup of the row store succeeds. *)
Definition next_lookup_ok (self : Notifier) (st : state) : Prop :=
  db_faults self (db_lookups st) = false.

(** No lookup of the row store ever fails. *)
Definition db_reliable (self : Notifier) : Prop :=
  ∀ n, db_faults self n = false.

(** Every event of the computation satisfies [P], from every state. *)
Definition emits {A} (P : event → Prop) (m : M A) : Prop :=
  ∀ st, Forall P (emitted m st).

(** None of the three role flags is set. *)
Definition unprivileged (row : user_row) : Prop :=
  u_operator row ≠ 1%Z ∧ u_reader row ≠ 1%Z ∧ u_roleoper row ≠ 1%Z.

(** The whitelist is absent or empty. *)
Definition no_whitelist (self : Notifier) : Prop :=
  whitelist (config self) = None ∨ whitelist (config self) = Some [].

Definition is_send (e : event) : bool :=
  match e with ESendMail _ => true | _ => false end.

(** An event that hands nothing to the mail transport. *)
Definition quiet (e : event) : Prop := is_send e = false.

(** An event that is no user-facing mail: no call of [userMail], and no
    message to the transport but one addressed to the operators. *)
Definition operator_only (self : Notifier) (e : event) : Prop :=
  match e with
  | ECallUserMail _ _ _ => False
  | ESendMail m => mail_to m = operators (config self)
  | _ => True
  end.

(** A trace without user-facing mail. *)
Definition no_user_mail (self : Notifier) (tr : list event) : Prop :=
  user_calls tr = [] ∧
  Forall (λ m, mail_to m = operators (config self)) (sent_mails tr).


(** Two notifications, one after the other. *)
Definition then_ (m1 m2 : M unit) : M unit := m1;; m2.

(** The timestamp [ufdsKeyMismatch] compares [now] with: the persisted one
    when the [metadata] row exists, [this.lastKeyMismatch] otherwise. *)
Definition recorded_last (st : state) : option Z :=
  match db_metadata st !! "last_key_mismatch" with
  | Some v => Some v
  | None => lastKeyMismatch st
  end.

(** The number of operator alerts in a trace. *)
Definition alerts (tr : list event) : nat := length (operator_calls tr).

(** The reading of the suppression rule under which any two mismatch
    events less than four hours apart yield exactly one alert, whatever
    happened before them. *)
Definition one_alert_per_close_pair : Prop :=
  ∀ (self : Notifier) (st : state) (t1 t2 : Z) (fp : string) (k : sshkey),
    db_reliable self →
    initialSync (config self) = false →
    (0 ≤ t2 - t1 < 4 * 3600 * 1000)%Z →
    alerts (emitted (then_ (ufdsKeyMismatch self t1 fp k)
                           (ufdsKeyMismatch self t2 fp k)) st) = 1.

(** The reading of the suppression rule under which of any two mismatch
    events more than four hours apart both alert, whatever happened
    before them. *)
Definition both_alert_when_far_apart : Prop :=
  ∀ (self : Notifier) (st : state) (t1 t2 : Z) (fp : string) (k : sshkey),
    db_reliable self →
    initialSync (config self) = false →
    (4 * 3600 * 1000 < t2 - t1)%Z →
    alerts (emitted (ufdsKeyMismatch self t1 fp k) st) = 1 ∧
    alerts (emitted (ufdsKeyMismatch self t2 fp k)
                    (exec (ufdsKeyMismatch self t1 fp k) st)) = 1.

(** The other accounts holding [key], as the [findKeys] stage gets them. *)
Definition holders (st : state) (key : sshkey) (uuid : string)
    : list location :=
  map location_of
      (List.filter (λ k, String.eqb (k_fingerprint k) (fingerprint_md5_hex key)
                         && negb (String.eqb (k_uuid k) uuid))
                   (db_keys st)).

(** A location completed with the login and email of its account. *)
Definition join_user (st : state) (loc : location) : location :=
  match stored_user st (loc_uuid loc) with
  | Some row =>
      Location (loc_uuid loc) (loc_name loc) (loc_comment loc)
               (Some (u_login row)) (Some (u_email row))
  | None => loc
  end.

(** The (login, email) pairs of a list of locations. *)
Definition contacts (locs : list location)
    : list (option string * option string) :=
  map (λ l, (loc_login l, loc_email l)) locs.

(** The values of the variable [otherLocations] in the renders of a trace. *)
Definition rendered_locations (tr : list event) : list tplval :=
  omap (λ r : string * tplargs, r.2 !! "otherLocations") (renders tr).

(** The three lookup stages of the key-added pipeline. *)
Definition lookup_stages (self : Notifier) (uuid : string) (key : sshkey)
    : list stage :=
  [getUser self uuid; findKeys self uuid key; getOtherUsers self].

(** The notifications whose handler starts with a lookup of the row
    store. *)
Definition looks_up (n : notification) : bool :=
  match n with
  | UserDeleted _ _ _
  | WeirdGroupMemberAdded _ _ _ _
  | WeirdGroupMemberRemoved _ _ _ _ => false
  | _ => true
  end.

(** The value of the variable [keys] in the renders of a trace. *)
Definition rendered_keys (tr : list event) : list tplval :=
  omap (λ r : string * tplargs, r.2 !! "keys") (renders tr).

(** The events of a sequence of notifications, each handler starting in
    the state the one before it left (an exception ends one handler, not
    the sequence). *)
Fixpoint handle_all (self : Notifier) (ns : list notification) (st : state)
    : list event :=
  match ns with
  | [] => []
  | n :: ns' =>
      emitted (handle self n) st ++
      handle_all self ns' (exec (handle self n) st)
  end.

(** ** Sample data *)

Definition sample_config : Config :=
  {| cloud_name := "us-east"; company := "Joyent";
     my_email := "alerts@example.com"; operators := One "ops@example.com";
     oper_prefix := "[OPS] "; user_prefix := "[ACCOUNT] ";
     whitelist := None; initialSync := false |}.

(** A Notifier whose collaborators never fail. *)
Definition sample_self : Notifier :=
  {| config := sample_config;
     db_faults := λ _, false;
     mailer := λ _, inr "250 OK";
     tplDir := λ tpl _, tpl |}.

(** The same Notifier with a whitelist that holds one uuid. *)
Definition listing_self : Notifier :=
  {| config :=
       {| cloud_name := "us-east"; company := "Joyent";
          my_email := "alerts@example.com"; operators := One "ops@example.com";
          oper_prefix := "[OPS] "; user_prefix := "[ACCOUNT] ";
          whitelist := Some ["u-bob"]; initialSync := false |};
     db_faults := λ _, false;
     mailer := λ _, inr "250 OK";
     tplDir := λ tpl _, tpl |}.

(** The same Notifier during the initial synchronization. *)
Definition syncing_self : Notifier :=
  {| config :=
       {| cloud_name := "us-east"; company := "Joyent";
          my_email := "alerts@example.com"; operators := One "ops@example.com";
          oper_prefix := "[OPS] "; user_prefix := "[ACCOUNT] ";
          whitelist := None; initialSync := true |};
     db_faults := λ _, false;
     mailer := λ _, inr "250 OK";
     tplDir := λ tpl _, tpl |}.

Definition alice : user_row :=
  UserRow "u-alice" "alice" "alice@example.com" "active" 0 0 0.
Definition bob : user_row :=
  UserRow "u-bob" "bob" "bob@example.com" "active" 1 0 0.
Definition carol : user_row :=
  UserRow "u-carol" "carol" "carol@example.com" "disabled" 0 1 0.

Definition sample_key : sshkey := SshKey "aa:bb:cc" "SHA256:abc".

Definition sample_keys : list key_row :=
  [KeyRow "u-bob" "aa:bb:cc" "laptop" "bob@laptop";
   KeyRow "u-carol" "aa:bb:cc" "desk" "carol@desk";
   KeyRow "u-alice" "dd:ee:ff" "old" "alice@old"].

Definition sample_state : state :=
  new_Notifier [alice; bob; carol] sample_keys ∅.

(** A row store in which the accounts of the other key holders are gone. *)
Definition orphan_state : state :=
  new_Notifier [alice] sample_keys ∅.

(** The same row store with the [keys] table in another order. *)
Definition shuffled_state : state :=
  new_Notifier [alice; bob; carol] (rev sample_keys) ∅.

(** A Notifier whose row store fails on the second lookup. *)
Definition flaky_self : Notifier :=
  {| config := sample_config;
     db_faults := λ n, Nat.eqb n 1;
     mailer := λ _, inr "250 OK";
     tplDir := λ tpl _, tpl |}.


(** A Notifier whose row store fails on the fourth lookup. *)
Definition flaky4_self : Notifier :=
  {| config := sample_config;
     db_faults := λ n, Nat.eqb n 3;
     mailer := λ _, inr "250 OK";
     tplDir := λ tpl _, tpl |}.

(** A Notifier whose row store fails on the third lookup. *)
Definition flaky3_self : Notifier :=
  {| config := sample_config;
     db_faults := λ n, Nat.eqb n 2;
     mailer := λ _, inr "250 OK";
     tplDir := λ tpl _, tpl |}.

Definition hour : Z := 3600 * 1000.

(** ** Further observations *)

(** The uuid whose [users] row a handler fetches first, if it fetches one. *)
Definition subject_of (n : notification) : option string :=
  match n with
  | LoginChanged _ uuid _ _ _ | PasswordChanged _ uuid _
  | EmailChanged _ uuid _ _ | KeyAdded _ uuid _ _ _ | KeyDeleted _ uuid _ _ _
  | OperatorAdded _ uuid _ | ReaderAdded _ uuid | RoleoperAdded _ uuid
  | OperatorRemoved _ uuid _ | ReaderRemoved _ uuid | RoleoperRemoved _ uuid =>
      Some uuid
  | _ => None
  end.

(** The values of the variable [name] in the renders of a trace. *)
Definition rendered_var (name : string) (tr : list event) : list tplval :=
  omap (λ r : string * tplargs, r.2 !! name) (renders tr).

(** The subjects [operatorMail] was called with. *)
Definition operator_subjects (tr : list event) : list string :=
  map fst (operator_calls tr).

(** The recipients and subjects [userMail] was called with. *)
Definition user_subjects (tr : list event) : list (rcpt * string) :=
  map fst (user_calls tr).

(** The rows of the [keys] table of one account. *)
Definition keys_of (st : state) (uuid : string) : list key_row :=
  List.filter (λ k, String.eqb (k_uuid k) uuid) (db_keys st).

(** The group named in an operator-added or operator-removed alert. *)
Definition group_of (n : notification) : option string :=
  match n with
  | OperatorAdded _ _ g | OperatorRemoved _ _ g => Some (default "operator" g)
  | ReaderAdded _ _ | ReaderRemoved _ _ => Some "reader"
  | RoleoperAdded _ _ | RoleoperRemoved _ _ => Some "role-operator"
  | _ => None
  end.

(** Every time of [ts] is at most four hours after the time before it,
    [t] being the time before the first. *)
Fixpoint close_after (t : Z) (ts : list Z) : Prop :=
  match ts with
  | [] => True
  | t' :: ts' => (t' - t ≤ 4 * 3600 * 1000)%Z ∧ close_after t' ts'
  end.

(** Key-mismatch notifications at the times [ts]. *)
Definition mismatches (fp : string) (k : sshkey) (ts : list Z)
    : list notification :=
  map (λ t, KeyMismatch t fp k) ts.

(** The state a sequence of notifications leaves. *)
Fixpoint exec_all (self : Notifier) (ns : list notification) (st : state)
    : state :=
  match ns with
  | [] => st
  | n :: ns' => exec_all self ns' (exec (handle self n) st)
  end.

(** The computation keeps the property [I] of the state. *)
Definition keeps {A} (I : state → Prop) (m : M A) : Prop :=
  ∀ st, I st → I (exec m st).



(** The [users] and [keys] tables of [st'] are those of [st]. *)
Definition same_tables (st st' : state) : Prop :=
  db_users st' = db_users st ∧ db_keys st' = db_keys st.

(** The [metadata] table of [st'] is the one of [st] but for the row of the
    key-mismatch timestamp. *)
Definition same_other_metadata (st st' : state) : Prop :=
  ∀ key, key ≠ "last_key_mismatch" →
    db_metadata st' !! key = db_metadata st !! key.

(** The suppression state (persisted and in memory) of [st'] is the one of
    [st]. *)
Definition same_suppression (st st' : state) : Prop :=
  db_metadata st' = db_metadata st ∧ lastKeyMismatch st' = lastKeyMismatch st.

Definition is_key_mismatch (n : notification) : bool :=
  match n with KeyMismatch _ _ _ => true | _ => false end.

(** The computation ends normally from every state. *)
Definition never_throws {A} (m : M A) : Prop :=
  ∀ st, ∃ a, result m st = Done a.

(** A message as one of the two helpers builds it: sent from the address
    of the service, and either addressed to the operators under the
    operator prefix or carrying the user prefix. *)
Definition mail_ok (self : Notifier) (m : mail) : Prop :=
  mail_from m = my_email (config self) ∧
  ∃ subject,
    (mail_to m = operators (config self) ∧
     mail_subject m = oper_prefix (config self) +:+ subject) ∨
    mail_subject m = user_prefix (config self) +:+ subject.

Definition sends_ok (self : Notifier) (e : event) : Prop :=
  match e with ESendMail m => mail_ok self m | _ => True end.

(** As many messages handed to the transport as calls of the helpers. *)
Definition balanced (tr : list event) : Prop :=
  length (sent_mails tr) =
  length (operator_calls tr) + length (user_calls tr).

(** Every trace of the computation satisfies [T]. *)
Definition traces {A} (T : list event → Prop) (m : M A) : Prop :=
  ∀ st, T (emitted m st).

(** The Notifier [self] over another mail transport. *)
Definition with_mailer (self : Notifier) (mailer' : mail → string + string)
    : Notifier :=
  {| config := config self; db_faults := db_faults self;
     mailer := mailer'; tplDir := tplDir self |}.

(** The log records written by the callbacks of [sendMail]. *)
Definition is_delivery_log (e : event) : bool :=
  match e with
  | ELogError msg _ =>
      String.eqb msg "failed sending operator mail"
      || String.eqb msg "failed sending user mail to %j (%s)"
  | ELogInfo msg _ =>
      String.eqb msg "sent mail to operators"
      || String.eqb msg "sent mail to user"
  | _ => false
  end.

Definition without_delivery_logs (tr : list event) : list event :=
  List.filter (λ e, negb (is_delivery_log e)) tr.

(** Two computations with the same outcome, the same final state and the
    same events but for the delivery logs. *)
Definition agree {A} (m1 m2 : M A) : Prop :=
  ∀ st, result m1 st = result m2 st ∧ exec m1 st = exec m2 st ∧
        without_delivery_logs (emitted m1 st) =
        without_delivery_logs (emitted m2 st).

(** A Notifier whose mail transport refuses every message. *)
Definition bouncing_self : Notifier :=
  {| config := sample_config;
     db_faults := λ _, false;
     mailer := λ _, inl "ECONNREFUSED";
     tplDir := λ tpl _, tpl |}.

(** The notifications whose handler can write to the user. *)
Definition may_mail_user (n : notification) : bool :=
  match n with
  | PasswordChanged _ _ _ | EmailChanged _ _ _ _
  | KeyAdded _ _ _ _ _ | KeyDeleted _ _ _ _ _ => true
  | _ => false
  end.

(** A location that carries the login and the email of its account. *)
Definition complete (l : location) : Prop :=
  is_Some (loc_login l) ∧ is_Some (loc_email l).

(** A value of [otherLocations] that lists the other holders of the key in
    the order of the [keys] query, each of them complete. *)
Definition lists_holders (st : state) (key : sshkey) (uuid : string)
    (v : tplval) : Prop :=
  ∃ locs, v = VLocations locs ∧ Forall complete locs ∧
          map loc_uuid locs = map loc_uuid (holders st key uuid) ∧
          map loc_name locs = map loc_name (holders st key uuid).

(** * Proofs *)

(** ** How computations run *)

Section Run.
Context {A B : Type}.
Implicit Types (m : M A) (k : A → M B) (st : state).

Lemma result_bind m k st :
  result (m ≫= k) st =
  match result m st with
  | Done a => result (k a) (exec m st)
  | Throw e => Throw e
  end.
Proof.
  unfold result, exec, mbind, M_bind, bind.
  destruct (m st) as [[[a|e] st'] tr]; simpl; [|done].
  by destruct (k a st') as [[r st''] tr'].
Qed.

Lemma exec_bind m k st :
  exec (m ≫= k) st =
  match result m st with
  | Done a => exec (k a) (exec m st)
  | Throw e => exec m st
  end.
Proof.
  unfold result, exec, mbind, M_bind, bind.
  destruct (m st) as [[[a|e] st'] tr]; simpl; [|done].
  by destruct (k a st') as [[r st''] tr'].
Qed.

Lemma emitted_bind m k st :
  emitted (m ≫= k) st =
  match result m st with
  | Done a => emitted m st ++ emitted (k a) (exec m st)
  | Throw e => emitted m st
  end.
Proof.
  unfold result, exec, emitted, mbind, M_bind, bind.
  destruct (m st) as [[[a|e] st'] tr]; simpl; [|done].
  by destruct (k a st') as [[r st''] tr'].
Qed.
End Run.

Section Primitives.
Context (self : Notifier).
Implicit Types (st : state) (e : event).

Lemma result_ret {A} (a : A) st : result (mret a : M A) st = Done a.
Proof. done. Qed.
Lemma exec_ret {A} (a : A) st : exec (mret a : M A) st = st.
Proof. done. Qed.
Lemma emitted_ret {A} (a : A) st : emitted (mret a : M A) st = [].
Proof. done. Qed.

Lemma result_throw {A} msg st : result (throw msg : M A) st = Throw msg.
Proof. done. Qed.
Lemma exec_throw {A} msg st : exec (throw msg : M A) st = st.
Proof. done. Qed.
Lemma emitted_throw {A} msg st : emitted (throw msg : M A) st = [].
Proof. done. Qed.

Lemma result_gets {A} (f : state → A) st : result (gets f) st = Done (f st).
Proof. done. Qed.
Lemma exec_gets {A} (f : state → A) st : exec (gets f) st = st.
Proof. done. Qed.
Lemma emitted_gets {A} (f : state → A) st : emitted (gets f) st = [].
Proof. done. Qed.

Lemma result_emit e st : result (emit e) st = Done tt.
Proof. done. Qed.
Lemma exec_emit e st : exec (emit e) st = st.
Proof. done. Qed.
Lemma emitted_emit e st : emitted (emit e) st = [e].
Proof. done. Qed.

Lemma result_db_lookup {A} (v : state → A) st :
  result (db_lookup self v) st =
  Done (if db_faults self (db_lookups st) then inl "SQLITE_ERROR"
        else inr (v st)).
Proof. unfold result, db_lookup. by destruct (db_faults _ _). Qed.
Lemma exec_db_lookup {A} (v : state → A) st :
  exec (db_lookup self v) st = bump st.
Proof. unfold exec, db_lookup. by destruct (db_faults _ _). Qed.
Lemma emitted_db_lookup {A} (v : state → A) st :
  emitted (db_lookup self v) st = [].
Proof. unfold emitted, db_lookup. by destruct (db_faults _ _). Qed.

Lemma result_db_run key value st :
  result (db_run_metadata key value) st = Done tt.
Proof. done. Qed.
Lemma exec_db_run key value st :
  exec (db_run_metadata key value) st =
  State (db_users st) (db_keys st) (<[key := value]> (db_metadata st))
        (db_lookups st) (tplCache st) (lastKeyMismatch st).
Proof. done. Qed.
Lemma emitted_db_run key value st :
  emitted (db_run_metadata key value) st = [EDbRun key value].
Proof. done. Qed.

Lemma result_set_last now st : result (set_lastKeyMismatch now) st = Done tt.
Proof. done. Qed.
Lemma exec_set_last now st :
  exec (set_lastKeyMismatch now) st =
  State (db_users st) (db_keys st) (db_metadata st) (db_lookups st)
        (tplCache st) (Some now).
Proof. done. Qed.
Lemma emitted_set_last now st : emitted (set_lastKeyMismatch now) st = [].
Proof. done. Qed.

Lemma result_render tpl args st :
  result (render self tpl args) st =
  Done (compiled self st tpl (ambient self args)).
Proof.
  unfold result, render, compiled, ambient; simpl.
  destruct (tplCache st !! tpl) as [f|] eqn:E.
  - by rewrite E.
  - by rewrite lookup_insert_eq.
Qed.
Lemma exec_render tpl args st :
  exec (render self tpl args) st = cached self tpl st.
Proof. done. Qed.
Lemma emitted_render tpl args st :
  emitted (render self tpl args) st = [ERender tpl (ambient self args)].
Proof. done. Qed.

Lemma result_operatorMail subject text st :
  result (operatorMail self subject text) st = Done tt.
Proof.
  unfold operatorMail. rewrite result_bind, result_emit.
  destruct (initialSync (config self)); [done|].
  rewrite result_bind, result_emit. by destruct (mailer self _).
Qed.
Lemma exec_operatorMail subject text st :
  exec (operatorMail self subject text) st = st.
Proof.
  unfold operatorMail. rewrite exec_bind, result_emit, exec_emit.
  destruct (initialSync (config self)); [done|].
  rewrite exec_bind, result_emit, exec_emit. by destruct (mailer self _).
Qed.
Lemma emitted_operatorMail subject text st :
  emitted (operatorMail self subject text) st =
  ECallOperatorMail subject text ::
  if initialSync (config self) then []
  else [ESendMail (operator_message self subject text);
        match mailer self (operator_message self subject text) with
        | inl err => ELogError "failed sending operator mail" [err]
        | inr resp => ELogInfo "sent mail to operators" [subject; resp]
        end].
Proof.
  unfold operatorMail.
  rewrite emitted_bind, result_emit, emitted_emit, exec_emit.
  destruct (initialSync (config self)); [done|].
  rewrite emitted_bind, result_emit, emitted_emit, exec_emit.
  fold (operator_message self subject text).
  by destruct (mailer self _).
Qed.

Lemma result_userMail to subject text st :
  result (userMail self to subject text) st = Done tt.
Proof.
  unfold userMail. rewrite result_bind, result_emit.
  destruct (initialSync (config self)); [done|].
  rewrite result_bind, result_emit. by destruct (mailer self _).
Qed.
Lemma exec_userMail to subject text st :
  exec (userMail self to subject text) st = st.
Proof.
  unfold userMail. rewrite exec_bind, result_emit, exec_emit.
  destruct (initialSync (config self)); [done|].
  rewrite exec_bind, result_emit, exec_emit. by destruct (mailer self _).
Qed.
Lemma emitted_userMail to subject text st :
  emitted (userMail self to subject text) st =
  ECallUserMail to subject text ::
  if initialSync (config self) then []
  else [ESendMail (user_message self to subject text);
        match mailer self (user_message self to subject text) with
        | inl err =>
            ELogError "failed sending user mail to %j (%s)" [err; subject]
        | inr resp => ELogInfo "sent mail to user" [subject; resp]
        end].
Proof.
  unfold userMail.
  rewrite emitted_bind, result_emit, emitted_emit, exec_emit.
  destruct (initialSync (config self)); [done|].
  rewrite emitted_bind, result_emit, emitted_emit, exec_emit.
  fold (user_message self to subject text).
  by destruct (mailer self _).
Qed.

Lemma result_when (b : bool) (m : M unit) st :
  result (when_ b m) st = if b then result m st else Done tt.
Proof. by destruct b. Qed.
Lemma exec_when (b : bool) (m : M unit) st :
  exec (when_ b m) st = if b then exec m st else st.
Proof. by destruct b. Qed.
Lemma emitted_when (b : bool) (m : M unit) st :
  emitted (when_ b m) st = if b then emitted m st else [].
Proof. by destruct b. Qed.
End Primitives.

Create Rewrite HintDb run.
#[global] Hint Rewrite
  @result_bind @exec_bind @emitted_bind
  @result_ret @exec_ret @emitted_ret
  @result_throw @exec_throw @emitted_throw
  @result_gets @exec_gets @emitted_gets
  result_emit exec_emit emitted_emit
  @result_db_lookup @exec_db_lookup @emitted_db_lookup
  result_db_run exec_db_run emitted_db_run
  result_set_last exec_set_last emitted_set_last
  result_render exec_render emitted_render
  result_operatorMail exec_operatorMail emitted_operatorMail
  result_userMail exec_userMail emitted_userMail
  result_when exec_when emitted_when : run.

Lemma if_same {A} (b : bool) (x : A) : (if b then x else x) = x.
Proof. by destruct b. Qed.
#[global] Hint Rewrite @if_same : run.

(** Runs a handler symbolically as far as the known answers allow. *)
Ltac run :=
  unfold db_get_user, db_get_metadata, db_all_keys_by_fingerprint,
    db_all_keys_by_uuid, log_db_error;
  repeat (autorewrite with run; cbv beta iota; simpl app).

(** Splits on the initial-sync flag and on the answers of the transport. *)
Ltac mail_cases :=
  repeat match goal with
         | |- context [initialSync ?c] => destruct (initialSync c) eqn:?
         | |- context [mailer ?s ?m] => destruct (mailer s m)
         end;
  try done.

(** ** Key-mismatch alerts *)

Section KeyMismatch.
Context (self : Notifier).
Implicit Types (st : state) (now : Z) (fp : string) (k : sshkey).

Lemma ufdsKeyMismatch_emitted st now fp k :
  next_lookup_ok self st →
  emitted (ufdsKeyMismatch self now fp k) st =
  EDbRun "last_key_mismatch" now ::
  if mismatch_due (recorded_last st) now then
    ERender "ufds-key-mismatch"
      (ambient self (<["expectedFp" := VStr fp]>
                       (<["newFp" := VStr (fingerprint_default k)]> ∅))) ::
    emitted (operatorMail self "UFDS key mismatch" (mismatch_text self st fp k)) st
  else [].
Proof.
  unfold next_lookup_ok, ufdsKeyMismatch, recorded_last. intros Hok.
  run. rewrite Hok. run.
  change (db_metadata (bump st)) with (db_metadata st).
  change (lastKeyMismatch (bump st)) with (lastKeyMismatch st).
  destruct (mismatch_due _ now); run; by rewrite ?app_nil_r.
Qed.

Lemma ufdsKeyMismatch_exec st now fp k :
  next_lookup_ok self st →
  let st' := exec (ufdsKeyMismatch self now fp k) st in
  db_metadata st' = <["last_key_mismatch" := now]> (db_metadata st) ∧
  lastKeyMismatch st' = Some now ∧
  db_lookups st' = S (db_lookups st).
Proof.
  unfold next_lookup_ok, ufdsKeyMismatch. intros Hok.
  run. rewrite Hok. run.
  destruct (mismatch_due _ now); run; by repeat split.
Qed.

Lemma ufdsKeyMismatch_recorded st now fp k :
  next_lookup_ok self st →
  recorded_last (exec (ufdsKeyMismatch self now fp k) st) = Some now.
Proof.
  intros Hok. destruct (ufdsKeyMismatch_exec st now fp k Hok) as (Hm & _).
  unfold recorded_last. by rewrite Hm, lookup_insert_eq.
Qed.

Lemma ufdsKeyMismatch_alerts st now fp k :
  next_lookup_ok self st →
  operator_calls (emitted (ufdsKeyMismatch self now fp k) st) =
  if mismatch_due (recorded_last st) now
  then [("UFDS key mismatch", mismatch_text self st fp k)] else [].
Proof.
  intros Hok. rewrite ufdsKeyMismatch_emitted by done.
  destruct (mismatch_due _ now); [|done].
  rewrite emitted_operatorMail. mail_cases.
Qed.

Lemma ufdsKeyMismatch_sent st now fp k :
  next_lookup_ok self st →
  sent_mails (emitted (ufdsKeyMismatch self now fp k) st) =
  if mismatch_due (recorded_last st) now && negb (initialSync (config self))
  then [operator_message self "UFDS key mismatch" (mismatch_text self st fp k)]
  else [].
Proof.
  intros Hok. rewrite ufdsKeyMismatch_emitted by done.
  destruct (mismatch_due _ now); [|done].
  rewrite emitted_operatorMail. mail_cases.
Qed.

Lemma ufdsKeyMismatch_db_runs st now fp k :
  next_lookup_ok self st →
  db_runs (emitted (ufdsKeyMismatch self now fp k) st) =
  [("last_key_mismatch", now)].
Proof.
  intros Hok. rewrite ufdsKeyMismatch_emitted by done.
  destruct (mismatch_due _ now); [|done].
  rewrite emitted_operatorMail. mail_cases.
Qed.

Lemma ufdsKeyMismatch_result st now fp k :
  result (ufdsKeyMismatch self now fp k) st = Done tt.
Proof.
  unfold ufdsKeyMismatch. run.
  destruct (db_faults self (db_lookups st)); run; done.
Qed.
End KeyMismatch.

(** C2, as stated, fails: after an event at time 0 on a fresh Notifier, the
    events at one hour and at six hours are more than four hours apart,
    and the one at one hour does not alert. *)
Lemma key_mismatch_far_pair_counterexample : ¬ both_alert_when_far_apart.
Proof.
  intros H.
  specialize (H sample_self
                (exec (ufdsKeyMismatch sample_self 0 "fp" sample_key)
                      sample_state)
                hour (6 * hour)%Z "fp" sample_key).
  assert (db_reliable sample_self) as Hrel by (intros n; reflexivity).
  specialize (H Hrel eq_refl).
  assert (4 * 3600 * 1000 < 6 * hour - hour)%Z as Hfar
    by (unfold hour; lia).
  destruct (H Hfar) as [Hfirst _].
  vm_compute in Hfirst. discriminate Hfirst.
Qed.

(** C2, amended: of two consecutive key-mismatch events more than four
    hours apart whose metadata lookups succeed, the second one always
    produces an operator alert (one call of [operatorMail], and one message
    to the transport outside initial sync); the first one produces an alert
    exactly when it is due, that is when it finds no recorded timestamp or
    a recorded one that it exceeds by more than 4*3600*1000 ms. *)
Theorem key_mismatch_far_pair
    (self : Notifier) (st : state) (t1 t2 : Z) (fp1 fp2 : string)
    (k1 k2 : sshkey) :
  let first := ufdsKeyMismatch self t1 fp1 k1 in
  let second := ufdsKeyMismatch self t2 fp2 k2 in
  next_lookup_ok self st →
  next_lookup_ok self (exec first st) →
  (4 * 3600 * 1000 < t2 - t1)%Z →
  alerts (emitted second (exec first st)) = 1 ∧
  (initialSync (config self) = false →
   length (sent_mails (emitted second (exec first st))) = 1) ∧
  alerts (emitted first st) =
    (if mismatch_due (recorded_last st) t1 then 1 else 0) ∧
  (recorded_last st = None → alerts (emitted first st) = 1) ∧
  (∀ last, recorded_last st = Some last →
     (4 * 3600 * 1000 < t1 - last)%Z → alerts (emitted first st) = 1) ∧
  (∀ last, recorded_last st = Some last →
     (t1 - last ≤ 4 * 3600 * 1000)%Z → alerts (emitted first st) = 0).
Proof.
  intros first second Hok1 Hok2 Hfar.
  assert (mismatch_due (recorded_last (exec first st)) t2 = true) as Hd2.
  { unfold first. rewrite ufdsKeyMismatch_recorded by done.
    simpl. by apply Z.ltb_lt. }
  unfold alerts, first, second in *.
  rewrite !ufdsKeyMismatch_alerts, !ufdsKeyMismatch_sent, Hd2 by done.
  split; [done|]. split; [by intros ->|].
  split; [by destruct (mismatch_due _ t1)|].
  split; [by intros ->|]. split.
  - intros last -> Hlt. simpl.
    by destruct (Z.ltb_spec (4 * 3600 * 1000) (t1 - last)); [|lia].
  - intros last -> Hle. simpl.
    by destruct (Z.ltb_spec (4 * 3600 * 1000) (t1 - last)); [lia|].
Qed.

Lemma key_mismatch_far_pair_witness :
  let first := ufdsKeyMismatch sample_self 0 "fp" sample_key in
  let second := ufdsKeyMismatch sample_self (5 * hour) "fp" sample_key in
  alerts (emitted second (exec first sample_state)) = 1 ∧
  length (sent_mails (emitted second (exec first sample_state))) = 1 ∧
  alerts (emitted first sample_state) = 1.
Proof.
  destruct (key_mismatch_far_pair sample_self sample_state
              0 (5 * hour) "fp" "fp" sample_key sample_key)
    as (Hsecond & Hsent & _ & Hfresh & _).
  - reflexivity.
  - reflexivity.
  - reflexivity.
  - split; [exact Hsecond|]. split; [apply Hsent; reflexivity|].
    apply Hfresh. reflexivity.
Defined.

(** C1, as stated, fails: after an event at time 0 on a fresh Notifier, the
    events at one hour and at two hours are less than four hours apart and
    neither of them alerts, so the pair yields no alert at all. *)
Lemma key_mismatch_close_pair_counterexample : ¬ one_alert_per_close_pair.
Proof.
  intros H.
  specialize (H sample_self
                (exec (ufdsKeyMismatch sample_self 0 "fp" sample_key)
                      sample_state)
                hour (2 * hour)%Z "fp" sample_key).
  assert (db_reliable sample_self) as Hrel by (intros n; reflexivity).
  specialize (H Hrel eq_refl).
  assert (0 ≤ 2 * hour - hour < 4 * 3600 * 1000)%Z as Hclose
    by (unfold hour; lia).
  specialize (H Hclose).
  vm_compute in H. discriminate H.
Qed.

(** C1, amended: of two consecutive key-mismatch events less than four
    hours apart whose metadata lookups succeed, the second one never
    alerts, so the pair yields exactly one operator alert when the first
    event is due (no timestamp recorded before it, or one more than four
    hours older) and none otherwise; the persisted timestamp
    ['last_key_mismatch'] is written with the event time on both events. *)
Theorem key_mismatch_within_window
    (self : Notifier) (st : state) (t1 t2 : Z) (fp1 fp2 : string)
    (k1 k2 : sshkey) :
  let first := ufdsKeyMismatch self t1 fp1 k1 in
  let second := ufdsKeyMismatch self t2 fp2 k2 in
  next_lookup_ok self st →
  next_lookup_ok self (exec first st) →
  (t2 - t1 < 4 * 3600 * 1000)%Z →
  alerts (emitted second (exec first st)) = 0 ∧
  alerts (emitted (then_ first second) st) =
    (if mismatch_due (recorded_last st) t1 then 1 else 0) ∧
  db_runs (emitted (then_ first second) st) =
    [("last_key_mismatch", t1); ("last_key_mismatch", t2)] ∧
  db_metadata (exec first st) !! "last_key_mismatch" = Some t1 ∧
  db_metadata (exec (then_ first second) st) !! "last_key_mismatch" = Some t2.
Proof.
  intros first second Hok1 Hok2 Hclose.
  assert (mismatch_due (recorded_last (exec first st)) t2 = false) as Hd2.
  { unfold first. rewrite ufdsKeyMismatch_recorded by done.
    simpl. apply Z.ltb_ge. lia. }
  assert (emitted (then_ first second) st =
          emitted first st ++ emitted second (exec first st)) as Htr.
  { unfold then_. rewrite emitted_bind. unfold first at 1.
    by rewrite ufdsKeyMismatch_result. }
  assert (exec (then_ first second) st = exec second (exec first st)) as Hex.
  { unfold then_. rewrite exec_bind. unfold first at 1.
    by rewrite ufdsKeyMismatch_result. }
  destruct (ufdsKeyMismatch_exec self st t1 fp1 k1 Hok1) as (Hm1 & _).
  destruct (ufdsKeyMismatch_exec self _ t2 fp2 k2 Hok2) as (Hm2 & _).
  fold first in Hm1, Hm2. fold second in Hm2.
  assert (alerts (emitted second (exec first st)) = 0) as Hnone.
  { unfold alerts, second. by rewrite ufdsKeyMismatch_alerts, Hd2. }
  split; [done|]. rewrite Htr, Hex. repeat split.
  - unfold alerts in *. unfold operator_calls in *.
    rewrite omap_app, length_app, Hnone.
    fold (operator_calls (emitted first st)). unfold first.
    rewrite ufdsKeyMismatch_alerts by done.
    by destruct (mismatch_due _ t1).
  - unfold db_runs. rewrite omap_app.
    fold (db_runs (emitted first st)).
    fold (db_runs (emitted second (exec first st))).
    unfold first at 1, second. by rewrite !ufdsKeyMismatch_db_runs.
  - by rewrite Hm1, lookup_insert_eq.
  - by rewrite Hm2, lookup_insert_eq.
Qed.

Lemma key_mismatch_within_window_witness :
  let first := ufdsKeyMismatch sample_self 0 "fp" sample_key in
  let second := ufdsKeyMismatch sample_self hour "fp" sample_key in
  alerts (emitted second (exec first sample_state)) = 0 ∧
  alerts (emitted (then_ first second) sample_state) = 1 ∧
  db_runs (emitted (then_ first second) sample_state) =
    [("last_key_mismatch", 0%Z); ("last_key_mismatch", hour)] ∧
  db_metadata (exec first sample_state) !! "last_key_mismatch" = Some 0%Z ∧
  db_metadata (exec (then_ first second) sample_state)
    !! "last_key_mismatch" = Some hour.
Proof.
  apply (key_mismatch_within_window sample_self sample_state
           0 hour "fp" "fp" sample_key sample_key).
  - reflexivity.
  - reflexivity.
  - reflexivity.
Defined.

(** ** Policy predicates *)

Lemma indexOf_absent (l : list string) (x : string) :
  indexOf l x = (-1)%Z ↔ x ∉ l.
Proof.
  induction l as [|y l IH]; simpl.
  - split; [intros _; apply not_elem_of_nil | done].
  - rewrite not_elem_of_cons. destruct (String.eqb_spec y x) as [->|Hne].
    + split; [done | intros [? _]; done].
    + assert (0 ≤ indexOf l x ∨ indexOf l x = -1)%Z as Hrange.
      { clear. induction l as [|z l IH]; simpl; [by right|].
        destruct (String.eqb z x); [left; lia|].
        destruct (Z.eqb_spec (indexOf l x) (-1)); [by right | left; lia]. }
      destruct (Z.eqb_spec (indexOf l x) (-1)) as [He|He].
      * split; [intros _; split; [congruence | by apply IH] | done].
      * split; [lia | intros [_ Hin]; apply IH in Hin; done].
Qed.

Lemma whitelisted_excluded (self : Notifier) (uuid : string) (wl : list string) :
  whitelist (config self) = Some wl → wl ≠ [] → uuid ∉ wl →
  whitelisted self uuid = false.
Proof.
  intros Hwl Hne Hnot. unfold whitelisted. rewrite Hwl.
  apply indexOf_absent in Hnot. rewrite Hnot.
  destruct wl; [done|]. simpl length. rewrite orb_false_r.
  apply Z.ltb_ge. lia.
Qed.

Lemma whitelisted_unrestricted (self : Notifier) (uuid : string) :
  no_whitelist self → whitelisted self uuid = true.
Proof. unfold whitelisted. by intros [-> | ->]. Qed.

Lemma whitelisted_member (self : Notifier) (uuid : string) (wl : list string) :
  whitelist (config self) = Some wl → uuid ∈ wl →
  whitelisted self uuid = true.
Proof.
  intros Hwl Hin. unfold whitelisted. rewrite Hwl.
  destruct (Z.eqb_spec (indexOf wl uuid) (-1)) as [He|He].
  - by apply indexOf_absent in He.
  - apply orb_true_r.
Qed.

Lemma unprivileged_spec (row : user_row) :
  unprivileged row ↔ privileged row = false.
Proof.
  unfold unprivileged, privileged.
  rewrite !orb_false_iff, !Z.eqb_neq. tauto.
Qed.

Lemma disabled_spec (row : user_row) :
  disabled row = true ↔ u_status row ≠ "active".
Proof.
  unfold disabled. rewrite negb_true_iff. by rewrite String.eqb_neq.
Qed.

(** ** Events a computation can issue *)

Section Emits.
Context (self : Notifier) (P : event → Prop).

Lemma emits_ret {A} (a : A) : emits P (mret a : M A).
Proof. intros st. apply Forall_nil_2. Qed.

Lemma emits_throw {A} msg : emits P (throw msg : M A).
Proof. intros st. apply Forall_nil_2. Qed.

Lemma emits_gets {A} (f : state → A) : emits P (gets f).
Proof. intros st. apply Forall_nil_2. Qed.

Lemma emits_set_last now : emits P (set_lastKeyMismatch now).
Proof. intros st. apply Forall_nil_2. Qed.

Lemma emits_emit e : P e → emits P (emit e).
Proof. intros He st. by apply Forall_singleton. Qed.

Lemma emits_bind {A B} (m : M A) (k : A → M B) :
  emits P m → (∀ a, emits P (k a)) → emits P (m ≫= k).
Proof.
  intros Hm Hk st. rewrite emitted_bind.
  destruct (result m st); [|apply Hm].
  apply Forall_app. split; [apply Hm | apply Hk].
Qed.

Lemma emits_db_lookup {A} (v : state → A) : emits P (db_lookup self v).
Proof. intros st. rewrite emitted_db_lookup. apply Forall_nil_2. Qed.

Lemma emits_db_run key value :
  P (EDbRun key value) → emits P (db_run_metadata key value).
Proof. intros He st. by apply Forall_singleton. Qed.

Lemma emits_render tpl args :
  P (ERender tpl (ambient self args)) → emits P (render self tpl args).
Proof. intros He st. rewrite emitted_render. by apply Forall_singleton. Qed.

Lemma emits_when (b : bool) (m : M unit) :
  (b = true → emits P m) → emits P (when_ b m).
Proof.
  intros Hm st. rewrite emitted_when.
  destruct b; [by apply Hm | apply Forall_nil_2].
Qed.

Lemma emits_pipeline (funcs : list stage) :
  Forall (λ f : stage, ∀ arg, emits P (f arg)) funcs →
  ∀ arg, emits P (vasync_pipeline funcs arg).
Proof.
  induction 1 as [|f funcs Hf _ IH]; intros arg; simpl.
  - apply emits_ret.
  - apply emits_bind; [apply Hf|].
    intros [err|arg']; [apply emits_ret | apply IH].
Qed.

Lemma emits_forEachPipeline {A} (func : A → M (string + A)) inputs :
  (∀ x, emits P (func x)) → emits P (vasync_forEachPipeline func inputs).
Proof.
  intros Hf. induction inputs as [|x inputs IH]; simpl.
  - apply emits_ret.
  - apply emits_bind; [apply Hf|].
    intros [err|x']; [apply emits_ret|].
    apply emits_bind; [apply IH|].
    intros [err|rest']; apply emits_ret.
Qed.
End Emits.

(** One step of a proof of [emits]: follows the shape of the computation. *)
Ltac emits_step :=
  match goal with
  | |- emits _ (mret _) => apply emits_ret
  | |- emits _ (ret _) => apply emits_ret
  | |- emits _ (throw _) => apply emits_throw
  | |- emits _ (gets _) => apply emits_gets
  | |- emits _ (set_lastKeyMismatch _) => apply emits_set_last
  | |- emits _ (emit _) => apply emits_emit
  | |- emits _ (db_lookup _ _) => apply emits_db_lookup
  | |- emits _ (db_run_metadata _ _) => apply emits_db_run
  | |- emits _ (render _ _ _) => apply emits_render
  | |- emits _ (when_ _ _) => apply emits_when; intros ?
  | |- emits _ (vasync_pipeline _ _) => apply emits_pipeline
  | |- emits _ (vasync_forEachPipeline _ _) =>
      apply emits_forEachPipeline; intros ?
  | |- emits _ (_ ≫= _) => apply emits_bind; [|intros ?]
  | |- emits _ (match ?x with _ => _ end) => destruct x eqn:?
  | |- Forall _ [] => apply Forall_nil_2
  | |- Forall _ (_ :: _) => apply Forall_cons_2; [intros ?|]
  end.

Ltac emits_unfold :=
  unfold handle, readerAdded, roleoperAdded, readerRemoved, roleoperRemoved,
    ufdsKeyMismatch, changedLogin, changedPassword, changedEmail, deletedUser,
    addedKey, addedKey_stages, getUser, findKeys, getOtherUsers,
    fetchOtherUser, sendMail, deletedKey, operatorAdded, operatorRemoved,
    weirdGroupMemberAdded, weirdGroupMemberRemoved, operatorMail, userMail,
    db_get_user, db_get_metadata, db_all_keys_by_fingerprint,
    db_all_keys_by_uuid, log_db_error.

(** ** C5: initial synchronization *)

Section InitialSync.
Context (self : Notifier).
Hypothesis Hsync : initialSync (config self) = true.

Lemma operatorMail_no_op subject text st :
  result (operatorMail self subject text) st = Done tt ∧
  exec (operatorMail self subject text) st = st ∧
  emitted (operatorMail self subject text) st =
    [ECallOperatorMail subject text].
Proof.
  rewrite result_operatorMail, exec_operatorMail, emitted_operatorMail.
  by rewrite Hsync.
Qed.

Lemma userMail_no_op to subject text st :
  result (userMail self to subject text) st = Done tt ∧
  exec (userMail self to subject text) st = st ∧
  emitted (userMail self to subject text) st = [ECallUserMail to subject text].
Proof.
  rewrite result_userMail, exec_userMail, emitted_userMail.
  by rewrite Hsync.
Qed.

Lemma handle_quiet (n : notification) : emits quiet (handle self n).
Proof.
  destruct n; emits_unfold; rewrite ?Hsync; repeat emits_step;
    reflexivity.
Qed.
End InitialSync.

Lemma sent_mails_quiet (tr : list event) :
  Forall quiet tr → sent_mails tr = [].
Proof.
  unfold quiet. induction 1 as [|e tr He _ IH]; [done|].
  unfold sent_mails in *. destruct e; simpl in *; done.
Qed.

(** C5: while the initial-synchronization flag is set, [operatorMail] and
    [userMail] return at once (the trace holds the entry into the helper
    and nothing else: no message to the transport, nothing logged; the
    state is unchanged), and no notification of any kind, alone or in a
    sequence, makes the Notifier call [sendMail]. *)
Theorem initial_sync_sends_nothing (self : Notifier) :
  initialSync (config self) = true →
  (∀ subject text st,
     exec (operatorMail self subject text) st = st ∧
     emitted (operatorMail self subject text) st =
       [ECallOperatorMail subject text]) ∧
  (∀ to subject text st,
     exec (userMail self to subject text) st = st ∧
     emitted (userMail self to subject text) st =
       [ECallUserMail to subject text]) ∧
  (∀ n st, sent_mails (emitted (handle self n) st) = []) ∧
  (∀ ns st, sent_mails (handle_all self ns st) = []).
Proof.
  intros Hsync. split; [|split; [|split]].
  - intros. by destruct (operatorMail_no_op self Hsync subject text st)
      as (_ & ? & ?).
  - intros. by destruct (userMail_no_op self Hsync to subject text st)
      as (_ & ? & ?).
  - intros n st. apply sent_mails_quiet, (handle_quiet self Hsync).
  - intros ns. induction ns as [|n ns IH]; intros st; [done|].
    simpl. unfold sent_mails in *. rewrite omap_app, IH, app_nil_r.
    apply sent_mails_quiet, (handle_quiet self Hsync).
Qed.

Lemma initial_sync_sends_nothing_witness :
  sent_mails
    (handle_all syncing_self
       [KeyMismatch 0 "fp" sample_key;
        PasswordChanged 0 "u-bob" "bob@example.com";
        KeyAdded 0 "u-alice" sample_key "laptop" [];
        OperatorAdded 0 "u-bob" None]
       sample_state) = [].
Proof.
  apply (initial_sync_sends_nothing syncing_self).
  reflexivity.
Defined.

(** ** Account-change handlers on a stored user *)

Section AccountChange.
Context (self : Notifier).
Implicit Types (st : state) (when : Z) (uuid : string) (row : user_row).

Lemma changedPassword_found st when uuid email row :
  next_lookup_ok self st →
  stored_user st uuid = Some row →
  ∃ oper_text,
    emitted (changedPassword self when uuid email) st =
    ERender "pw-changed" (pw_changed_args self when uuid row) ::
    (if whitelisted self uuid && negb (disabled row)
     then emitted (userMail self (One (u_email row))
                     "Your password has been changed"
                     (pw_changed_text self st when uuid row)) st
     else []) ++
    (if privileged row
     then ERender "oper-pw-changed" (pw_changed_args self when uuid row) ::
          emitted (operatorMail self
                     ("Password changed for operator " +:+ u_login row)
                     oper_text) st
     else []).
Proof.
  unfold next_lookup_ok, stored_user, changedPassword. intros Hok Hrow.
  eexists. run. rewrite Hok, Hrow. run. reflexivity.
Qed.

Lemma changedEmail_found st when uuid oldEmail newEmail row :
  next_lookup_ok self st →
  stored_user st uuid = Some row →
  ∃ args text oper_text,
    emitted (changedEmail self when uuid oldEmail newEmail) st =
    ERender "email-changed" args ::
    (if whitelisted self uuid && negb (disabled row)
     then emitted (userMail self (Many [oldEmail; newEmail])
                     "Your email address has been changed" text) st
     else []) ++
    (if privileged row
     then ERender "oper-email-changed" args ::
          emitted (operatorMail self
                     ("Operator email change for " +:+ u_login row)
                     oper_text) st
     else []).
Proof.
  unfold next_lookup_ok, stored_user, changedEmail. intros Hok Hrow.
  do 3 eexists. run. rewrite Hok, Hrow. run. reflexivity.
Qed.

Lemma deletedKey_found st when uuid key name otherKeys row :
  next_lookup_ok self st →
  stored_user st uuid = Some row →
  ∃ args text oper_text,
    emitted (deletedKey self when uuid key name otherKeys) st =
    ERender "deleted-key" args ::
    (if whitelisted self uuid && negb (disabled row)
     then emitted (userMail self (One (u_email row))
                     ("SSH key deleted from account " +:+ u_login row)
                     text) st
     else []) ++
    (if privileged row
     then ERender "oper-deleted-key" args ::
          emitted (operatorMail self
                     ("SSH key deleted from operator " +:+ u_login row)
                     oper_text) st
     else []).
Proof.
  unfold next_lookup_ok, stored_user, deletedKey. intros Hok Hrow.
  do 3 eexists. run. rewrite Hok, Hrow. run. reflexivity.
Qed.
End AccountChange.

(** C9: for [password-changed(when, uuid, email)] where the stored row of
    [uuid] is active and has none of the three role flags, and the
    whitelist is absent or empty, the handler calls [userMail] exactly once,
    with the email of the row as recipient, the subject 'Your password has
    been changed' (the user prefix is added by [userMail]) and the rendered
    'pw-changed' body, and never calls [operatorMail]. *)
Theorem password_changed_plain_user
    (self : Notifier) (st : state) (when : Z) (uuid email : string)
    (row : user_row) :
  let tr := emitted (changedPassword self when uuid email) st in
  next_lookup_ok self st →
  stored_user st uuid = Some row →
  u_status row = "active" →
  unprivileged row →
  no_whitelist self →
  user_calls tr =
    [(One (u_email row), "Your password has been changed",
      pw_changed_text self st when uuid row)] ∧
  operator_calls tr = [] ∧
  renders tr = [("pw-changed", pw_changed_args self when uuid row)] ∧
  sent_mails tr =
    (if initialSync (config self) then []
     else [user_message self (One (u_email row))
             "Your password has been changed"
             (pw_changed_text self st when uuid row)]).
Proof.
  intros tr Hok Hrow Hactive Hplain Hwl. subst tr.
  destruct (changedPassword_found self st when uuid email row Hok Hrow)
    as (oper_text & ->).
  apply unprivileged_spec in Hplain. rewrite Hplain.
  rewrite (whitelisted_unrestricted self uuid Hwl).
  unfold disabled. rewrite Hactive. simpl.
  rewrite emitted_userMail. mail_cases.
Qed.

Lemma password_changed_plain_user_witness :
  let tr := emitted (changedPassword sample_self 0 "u-alice" "a@example.com")
                    sample_state in
  user_calls tr =
    [(One "alice@example.com", "Your password has been changed",
      pw_changed_text sample_self sample_state 0 "u-alice" alice)] ∧
  operator_calls tr = [] ∧
  renders tr = [("pw-changed", pw_changed_args sample_self 0 "u-alice" alice)] ∧
  sent_mails tr =
    [user_message sample_self (One "alice@example.com")
       "Your password has been changed"
       (pw_changed_text sample_self sample_state 0 "u-alice" alice)].
Proof.
  apply (password_changed_plain_user sample_self sample_state 0 "u-alice"
           "a@example.com" alice).
  - reflexivity.
  - reflexivity.
  - reflexivity.
  - unfold unprivileged. simpl. lia.
  - left. reflexivity.
Defined.

(** C3: when the stored status of the user is not 'active', the
    password-changed and email-changed handlers never call [userMail] and
    hand no user message to the transport; whatever the status, they call
    [operatorMail] (once) exactly when one of the operator, reader or
    role-operator flags of the row is 1. *)
Theorem inactive_user_mail
    (self : Notifier) (st : state) (when : Z)
    (uuid email oldEmail newEmail : string) (row : user_row) :
  let pw := emitted (changedPassword self when uuid email) st in
  let em := emitted (changedEmail self when uuid oldEmail newEmail) st in
  next_lookup_ok self st →
  stored_user st uuid = Some row →
  (u_status row ≠ "active" →
   user_calls pw = [] ∧ user_calls em = [] ∧
   map mail_to (sent_mails pw) =
     (if privileged row && negb (initialSync (config self))
      then [operators (config self)] else []) ∧
   map mail_to (sent_mails em) =
     (if privileged row && negb (initialSync (config self))
      then [operators (config self)] else [])) ∧
  map fst (operator_calls pw) =
    (if privileged row
     then ["Password changed for operator " +:+ u_login row] else []) ∧
  map fst (operator_calls em) =
    (if privileged row
     then ["Operator email change for " +:+ u_login row] else []).
Proof.
  intros pw em Hok Hrow. subst pw em.
  destruct (changedPassword_found self st when uuid email row Hok Hrow)
    as (pw_oper & ->).
  destruct (changedEmail_found self st when uuid oldEmail newEmail row
              Hok Hrow) as (args & text & em_oper & ->).
  rewrite !emitted_userMail, !emitted_operatorMail.
  split; [intros Hoff; apply disabled_spec in Hoff; rewrite Hoff|].
  - rewrite andb_false_r. simpl.
    destruct (privileged row); simpl; mail_cases.
  - destruct (whitelisted self uuid && negb (disabled row)),
      (privileged row); simpl; mail_cases.
Qed.

Lemma inactive_user_mail_witness :
  let pw := emitted (changedPassword sample_self 0 "u-carol" "c@example.com")
                    sample_state in
  let em := emitted (changedEmail sample_self 0 "u-carol" "c@example.com"
                       "c2@example.com") sample_state in
  (user_calls pw = [] ∧ user_calls em = [] ∧
   map mail_to (sent_mails pw) = [One "ops@example.com"] ∧
   map mail_to (sent_mails em) = [One "ops@example.com"]) ∧
  map fst (operator_calls pw) = ["Password changed for operator carol"] ∧
  map fst (operator_calls em) = ["Operator email change for carol"].
Proof.
  destruct (inactive_user_mail sample_self sample_state 0 "u-carol"
              "c@example.com" "c@example.com" "c2@example.com" carol
              eq_refl eq_refl) as [Huser Hoper].
  split.
  - apply Huser. discriminate.
  - exact Hoper.
Defined.

(** ** The whitelist *)

Lemma operator_only_no_user_mail (self : Notifier) (tr : list event) :
  Forall (operator_only self) tr → no_user_mail self tr.
Proof.
  unfold no_user_mail, user_calls, sent_mails.
  induction 1 as [|e tr He _ [IH1 IH2]]; [by split|].
  destruct e; simpl in *; try done.
  split; [done|]. by apply Forall_cons.
Qed.

Section Whitelist.
Context (self : Notifier) (uuid : string).
Hypothesis Hout : whitelisted self uuid = false.

(** Closes the branches guarded by the whitelist test. *)
Ltac guarded :=
  first
    [ done
    | match goal with
      | H : whitelisted self uuid && _ = true |- _ =>
          rewrite Hout in H; discriminate H
      end ].

Lemma changedPassword_silent when email :
  emits (operator_only self) (changedPassword self when uuid email).
Proof. emits_unfold. repeat emits_step; guarded. Qed.

Lemma changedEmail_silent when oldEmail newEmail :
  emits (operator_only self) (changedEmail self when uuid oldEmail newEmail).
Proof. emits_unfold. repeat emits_step; guarded. Qed.

Lemma addedKey_silent when key name otherKeys :
  emits (operator_only self) (addedKey self when uuid key name otherKeys).
Proof. emits_unfold. repeat emits_step; guarded. Qed.

Lemma deletedKey_silent when key name otherKeys :
  emits (operator_only self) (deletedKey self when uuid key name otherKeys).
Proof. emits_unfold. repeat emits_step; guarded. Qed.
End Whitelist.

(** ** The key-added pipeline *)

Lemma run_eta {A} (m : M A) (st : state) :
  m st = (result m st, exec m st, emitted m st).
Proof. unfold result, exec, emitted. by destruct (m st) as [[? ?] ?]. Qed.

Section Pipeline.
Context (self : Notifier).
Implicit Types (st : state) (arg : pipearg) (funcs : list stage).


Lemma fetchOtherUser_run st loc :
  next_lookup_ok self st →
  fetchOtherUser self loc st =
  (match stored_user st (loc_uuid loc) with
   | Some _ => Done (inr (join_user st loc))
   | None => Throw "TypeError: Cannot read property 'login' of undefined"
   end, bump st, []).
Proof.
  unfold next_lookup_ok, fetchOtherUser, join_user, stored_user. intros Hok.
  rewrite run_eta. run. rewrite Hok.
  by destruct (find _ (db_users st)).
Qed.

Lemma forEach_fetch_ok (locs : list location) st :
  db_reliable self →
  Forall (λ l, is_Some (stored_user st (loc_uuid l))) locs →
  vasync_forEachPipeline (fetchOtherUser self) locs st =
  (Done (inr (map (join_user st) locs)), Nat.iter (length locs) bump st, []).
Proof.
  intros Hrel. revert st.
  induction locs as [|l locs IH]; intros st Hall; [done|].
  apply Forall_cons in Hall as [[row Hrow] Hall].
  simpl vasync_forEachPipeline. unfold mbind, M_bind, bind.
  rewrite fetchOtherUser_run by apply Hrel. rewrite Hrow.
  rewrite (IH (bump st)) by done.
  simpl length. rewrite Nat.iter_succ_r. reflexivity.
Qed.

Lemma forEach_fetch_missing (locs : list location) st :
  db_reliable self →
  Exists (λ l, stored_user st (loc_uuid l) = None) locs →
  result (vasync_forEachPipeline (fetchOtherUser self) locs) st =
    Throw "TypeError: Cannot read property 'login' of undefined" ∧
  emitted (vasync_forEachPipeline (fetchOtherUser self) locs) st = [].
Proof.
  intros Hrel. revert st.
  induction locs as [|l locs IH]; intros st Hex.
  - by apply Exists_nil in Hex.
  - simpl vasync_forEachPipeline.
    unfold result, emitted, mbind, M_bind, bind.
    rewrite fetchOtherUser_run by apply Hrel.
    destruct (stored_user st (loc_uuid l)) as [row|] eqn:Hrow; [|done].
    apply Exists_cons in Hex as [Hex|Hex]; [congruence|].
    destruct (IH (bump st) Hex) as [Hres Hem].
    unfold result, emitted in Hres, Hem.
    destruct (vasync_forEachPipeline _ locs (bump st)) as [[r st'] tr].
    simpl in *. by subst.
Qed.
End Pipeline.

Section AddedKey.
Context (self : Notifier).
Implicit Types (st : state) (arg : pipearg) (uuid : string) (key : sshkey).

Lemma getUser_run st uuid arg :
  next_lookup_ok self st →
  getUser self uuid arg st =
  match stored_user st uuid with
  | Some row =>
      (Done (inr (PipeArg (Some row) (pa_otherLocations arg))), bump st, [])
  | None =>
      (Done (inl "Not Found"), bump st,
       [ELogError
          "added key to user %s, but they could not be found in the database"
          [uuid]])
  end.
Proof.
  unfold next_lookup_ok, getUser, stored_user. intros Hok.
  rewrite run_eta. run. rewrite Hok.
  destruct (find _ (db_users st)); run; done.
Qed.

Lemma findKeys_run st uuid key arg :
  next_lookup_ok self st →
  findKeys self uuid key arg st =
  (Done (inr (PipeArg (pa_user arg) (Some (holders st key uuid)))),
   bump st, []).
Proof.
  unfold next_lookup_ok, findKeys, holders. intros Hok.
  rewrite run_eta. run. rewrite Hok. run. done.
Qed.

Lemma getOtherUsers_run st user (locs : list location) :
  db_reliable self →
  Forall (λ l, is_Some (stored_user st (loc_uuid l))) locs →
  getOtherUsers self (PipeArg user (Some locs)) st =
  (Done (inr (PipeArg user (Some (map (join_user st) locs)))),
   Nat.iter (length locs) bump st, []).
Proof.
  intros Hrel Hall. unfold getOtherUsers. simpl.
  unfold mbind, M_bind, bind.
  by rewrite forEach_fetch_ok.
Qed.

Lemma getOtherUsers_missing st user (locs : list location) :
  db_reliable self →
  Exists (λ l, stored_user st (loc_uuid l) = None) locs →
  result (getOtherUsers self (PipeArg user (Some locs))) st =
    Throw "TypeError: Cannot read property 'login' of undefined" ∧
  emitted (getOtherUsers self (PipeArg user (Some locs))) st = [].
Proof.
  intros Hrel Hex. unfold getOtherUsers. simpl.
  rewrite result_bind, emitted_bind.
  by destruct (forEach_fetch_missing self locs st Hrel Hex) as [-> ->].
Qed.

Lemma sendMail_run st when uuid key name otherKeys user locs :
  let arg := PipeArg (Some user) locs in
  ∃ text oper_text,
    result (sendMail self when uuid key name otherKeys arg) st =
      Done (inr arg) ∧
    emitted (sendMail self when uuid key name otherKeys arg) st =
      ERender "added-key"
        (ambient self (added_key_args when uuid key name otherKeys arg)) ::
      (if whitelisted self uuid && negb (disabled user)
       then emitted (userMail self (One (u_email user))
                       ("New SSH key added to account " +:+ u_login user)
                       text) st
       else []) ++
      (if privileged user
       then ERender "oper-added-key"
              (ambient self
                 (added_key_args when uuid key name otherKeys arg)) ::
            emitted (operatorMail self
                       ("SSH key added to operator " +:+ u_login user)
                       oper_text) st
       else []).
Proof.
  intros arg. unfold sendMail. simpl pa_user. do 2 eexists.
  run. split; [done|]. rewrite app_nil_r. reflexivity.
Qed.

(** The key-added handler when every lookup succeeds. *)
Lemma addedKey_found st when uuid key name otherKeys user :
  let arg := PipeArg (Some user)
               (Some (map (join_user st) (holders st key uuid))) in
  db_reliable self →
  stored_user st uuid = Some user →
  Forall (λ l, is_Some (stored_user st (loc_uuid l))) (holders st key uuid) →
  ∃ text oper_text,
    result (addedKey self when uuid key name otherKeys) st = Done tt ∧
    emitted (addedKey self when uuid key name otherKeys) st =
      ERender "added-key"
        (ambient self (added_key_args when uuid key name otherKeys arg)) ::
      (if whitelisted self uuid && negb (disabled user)
       then emitted (userMail self (One (u_email user))
                       ("New SSH key added to account " +:+ u_login user)
                       text) st
       else []) ++
      (if privileged user
       then ERender "oper-added-key"
              (ambient self
                 (added_key_args when uuid key name otherKeys arg)) ::
            emitted (operatorMail self
                       ("SSH key added to operator " +:+ u_login user)
                       oper_text) st
       else []).
Proof.
  intros arg Hrel Hrow Hall.
  set (st3 := Nat.iter (length (holders st key uuid)) bump (bump (bump st))).
  destruct (sendMail_run st3 when uuid key name otherKeys user
              (Some (map (join_user st) (holders st key uuid))))
    as (text & oper_text & Hres & Hem).
  exists text, oper_text.
  rewrite emitted_userMail, emitted_operatorMail in Hem |- *.
  unfold addedKey, addedKey_stages. simpl vasync_pipeline.
  unfold result, emitted in *. unfold mbind, M_bind, bind.
  rewrite getUser_run, Hrow by apply Hrel.
  rewrite findKeys_run by apply Hrel.
  rewrite (getOtherUsers_run (bump (bump st))) by done.
  change (holders (bump st) key uuid) with (holders st key uuid).
  change (join_user (bump (bump st))) with (join_user st).
  fold st3. simpl pa_user.
  destruct (sendMail _ _ _ _ _ _ _ st3) as [[r st4] tr].
  simpl in Hres, Hem. subst r tr. simpl.
  rewrite app_nil_r. split; [done|]. by rewrite app_nil_r.
Qed.
End AddedKey.

(** C4: under a configured non-empty whitelist that does not contain the
    subject uuid, the password-changed, email-changed, key-added and
    key-deleted handlers send no user-facing mail, from every state of the
    row store (so whatever the status of the user); under an absent or an
    empty whitelist every uuid passes the whitelist test, and the four
    handlers call [userMail] once for an active stored user. *)
Theorem whitelist_restricts_user_mail
    (self : Notifier) (uuid : string) (st : state) (when : Z)
    (email oldEmail newEmail name : string) (key : sshkey)
    (otherKeys : list sshkey) :
  let pw := emitted (changedPassword self when uuid email) st in
  let em := emitted (changedEmail self when uuid oldEmail newEmail) st in
  let ak := emitted (addedKey self when uuid key name otherKeys) st in
  let dk := emitted (deletedKey self when uuid key name otherKeys) st in
  (∀ wl, whitelist (config self) = Some wl → wl ≠ [] → uuid ∉ wl →
     no_user_mail self pw ∧ no_user_mail self em ∧
     no_user_mail self ak ∧ no_user_mail self dk) ∧
  (no_whitelist self →
     whitelisted self uuid = true ∧
     ∀ row, db_reliable self → stored_user st uuid = Some row →
       u_status row = "active" →
       Forall (λ l, is_Some (stored_user st (loc_uuid l)))
              (holders st key uuid) →
       length (user_calls pw) = 1 ∧ length (user_calls em) = 1 ∧
       length (user_calls ak) = 1 ∧ length (user_calls dk) = 1).
Proof.
  intros pw em ak dk. split.
  - intros wl Hwl Hne Hnot.
    pose proof (whitelisted_excluded self uuid wl Hwl Hne Hnot) as Hout.
    split; [|split; [|split]]; apply operator_only_no_user_mail.
    + apply changedPassword_silent, Hout.
    + apply changedEmail_silent, Hout.
    + apply addedKey_silent, Hout.
    + apply deletedKey_silent, Hout.
  - intros Hnone.
    pose proof (whitelisted_unrestricted self uuid Hnone) as Hin.
    split; [done|]. intros row Hrel Hrow Hactive Hall. subst pw em ak dk.
    destruct (changedPassword_found self st when uuid email row
                (Hrel _) Hrow) as (t1 & ->).
    destruct (changedEmail_found self st when uuid oldEmail newEmail row
                (Hrel _) Hrow) as (a2 & t2 & o2 & ->).
    destruct (addedKey_found self st when uuid key name otherKeys row
                Hrel Hrow Hall) as (t3 & o3 & _ & ->).
    destruct (deletedKey_found self st when uuid key name otherKeys row
                (Hrel _) Hrow) as (a4 & t4 & o4 & ->).
    rewrite !emitted_userMail, !emitted_operatorMail, Hin.
    unfold disabled. rewrite Hactive. simpl.
    destruct (privileged row); simpl; mail_cases.
Qed.

Lemma whitelist_restricts_user_mail_witness :
  (no_user_mail listing_self
     (emitted (changedPassword listing_self 0 "u-alice" "a@example.com")
              sample_state) ∧
   no_user_mail listing_self
     (emitted (changedEmail listing_self 0 "u-alice" "a@example.com"
                 "a2@example.com") sample_state) ∧
   no_user_mail listing_self
     (emitted (addedKey listing_self 0 "u-alice" sample_key "laptop" [])
              sample_state) ∧
   no_user_mail listing_self
     (emitted (deletedKey listing_self 0 "u-alice" sample_key "laptop" [])
              sample_state)) ∧
  whitelisted sample_self "u-alice" = true.
Proof.
  split.
  - destruct (whitelist_restricts_user_mail listing_self "u-alice"
                sample_state 0 "a@example.com" "a@example.com"
                "a2@example.com" "laptop" sample_key []) as [Hout _].
    apply (Hout ["u-bob"]).
    + reflexivity.
    + discriminate.
    + apply not_elem_of_cons. split; [discriminate | apply not_elem_of_nil].
  - destruct (whitelist_restricts_user_mail sample_self "u-alice"
                sample_state 0 "a@example.com" "a@example.com"
                "a2@example.com" "laptop" sample_key []) as [_ Hin].
    apply Hin. left. reflexivity.
Defined.

Lemma emitted_then_ret {A} (m : M A) (st : state) :
  emitted (m;; mret tt) st = emitted m st.
Proof.
  rewrite emitted_bind. destruct (result m st); [|done].
  by rewrite emitted_ret, app_nil_r.
Qed.

Lemma result_then_ret {A} (m : M A) (st : state) :
  result (m;; mret tt) st =
  match result m st with Done _ => Done tt | Throw e => Throw e end.
Proof. rewrite result_bind. by destruct (result m st). Qed.




(** C10: with a reliable row store and a stored subject user, the key-added
    handler ends with a TypeError, before anything is logged, rendered or
    sent, as soon as one of the other accounts listed in the [keys] table
    for the fingerprint has no [users] row; it returns normally when each
    of them has one. *)
Theorem key_added_missing_account_throws
    (self : Notifier) (st : state) (when : Z) (uuid : string) (key : sshkey)
    (name : string) (otherKeys : list sshkey) (user : user_row) :
  db_reliable self →
  stored_user st uuid = Some user →
  (Exists (λ l, stored_user st (loc_uuid l) = None) (holders st key uuid) →
   result (addedKey self when uuid key name otherKeys) st =
     Throw "TypeError: Cannot read property 'login' of undefined" ∧
   emitted (addedKey self when uuid key name otherKeys) st = []) ∧
  (Forall (λ l, is_Some (stored_user st (loc_uuid l))) (holders st key uuid) →
   result (addedKey self when uuid key name otherKeys) st = Done tt).
Proof.
  intros Hrel Hrow. split.
  - intros Hex.
    destruct (getOtherUsers_missing self (bump (bump st)) (Some user)
                (holders st key uuid) Hrel Hex) as [Hres Hem].
    unfold addedKey. rewrite result_then_ret, emitted_then_ret.
    unfold addedKey_stages. simpl vasync_pipeline.
    unfold result, emitted in *. unfold mbind, M_bind, bind.
    rewrite getUser_run, Hrow by apply Hrel.
    rewrite findKeys_run by apply Hrel.
    change (holders (bump st) key uuid) with (holders st key uuid).
    simpl pa_user.
    destruct (getOtherUsers self _ (bump (bump st))) as [[r st'] tr].
    simpl in Hres, Hem. by subst r tr.
  - intros Hall.
    by destruct (addedKey_found self st when uuid key name otherKeys user
                   Hrel Hrow Hall) as (? & ? & ? & _).
Qed.

Lemma key_added_missing_account_throws_witness :
  result (addedKey sample_self 0 "u-alice" sample_key "laptop" []) orphan_state
    = Throw "TypeError: Cannot read property 'login' of undefined" ∧
  emitted (addedKey sample_self 0 "u-alice" sample_key "laptop" [])
    orphan_state = [].
Proof.
  destruct (key_added_missing_account_throws sample_self orphan_state 0
              "u-alice" sample_key "laptop" [] alice) as [Hthrow _].
  - intros n. reflexivity.
  - reflexivity.
  - apply Hthrow. apply Exists_cons_hd. reflexivity.
Defined.

(** ** The join of the other key holders *)

Lemma List_filter_Permutation {A} (f : A → bool) (l l' : list A) :
  l ≡ₚ l' → List.filter f l ≡ₚ List.filter f l'.
Proof.
  induction 1 as [|x l l' _ IH|x y l|l1 l2 l3 _ IH1 _ IH2]; simpl.
  - done.
  - destruct (f x); [by constructor | done].
  - destruct (f x), (f y); try done. apply perm_swap.
  - by etrans.
Qed.

Lemma holders_Permutation (st st' : state) (key : sshkey) (uuid : string) :
  db_keys st' ≡ₚ db_keys st → holders st' key uuid ≡ₚ holders st key uuid.
Proof.
  intros Hperm. unfold holders.
  by apply Permutation_map, List_filter_Permutation.
Qed.

Lemma join_user_same_users (st st' : state) (loc : location) :
  db_users st' = db_users st → join_user st' loc = join_user st loc.
Proof. unfold join_user, stored_user. by intros ->. Qed.

Lemma added_key_other_locations (self : Notifier) when uuid key name otherKeys
    user (locs : list location) :
  ambient self
    (added_key_args when uuid key name otherKeys (PipeArg user (Some locs)))
    !! "otherLocations" = Some (VLocations locs).
Proof.
  unfold ambient, added_key_args.
  repeat (rewrite lookup_insert_ne by discriminate).
  apply lookup_insert_eq.
Qed.

(** What the templates of the key-added handler get, in general. *)
Lemma addedKey_rendered (self : Notifier) st when uuid key name otherKeys user :
  let tr := emitted (addedKey self when uuid key name otherKeys) st in
  let joined := map (join_user st) (holders st key uuid) in
  db_reliable self →
  stored_user st uuid = Some user →
  Forall (λ l, is_Some (stored_user st (loc_uuid l))) (holders st key uuid) →
  map fst (renders tr) =
    "added-key" :: (if privileged user then ["oper-added-key"] else []) ∧
  rendered_locations tr =
    VLocations joined :: (if privileged user then [VLocations joined] else []).
Proof.
  intros tr joined Hrel Hrow Hall. subst tr.
  destruct (addedKey_found self st when uuid key name otherKeys user
              Hrel Hrow Hall) as (text & oper_text & _ & ->).
  rewrite emitted_userMail, emitted_operatorMail.
  unfold rendered_locations.
  destruct (whitelisted self uuid && negb (disabled user)),
    (privileged user); mail_cases;
    simpl; rewrite ?added_key_other_locations; done.
Qed.

(** C8: for a key-added event where two other accounts hold the same
    fingerprint (their rows are stored and every lookup succeeds), the
    variable [otherLocations] of each rendered template ('added-key', and
    'oper-added-key' for a privileged user) lists both accounts with their
    login and email; and a row store that returns the [keys] rows in
    another order, so that the accounts are looked up in another order,
    yields the same (login, email) pairs up to order. *)
Theorem key_added_joins_other_holders
    (self : Notifier) (st : state) (when : Z) (uuid : string) (key : sshkey)
    (name : string) (otherKeys : list sshkey) (user : user_row)
    (l1 l2 : location) (r1 r2 : user_row) :
  let tr := emitted (addedKey self when uuid key name otherKeys) st in
  let joined :=
    [Location (loc_uuid l1) (loc_name l1) (loc_comment l1)
              (Some (u_login r1)) (Some (u_email r1));
     Location (loc_uuid l2) (loc_name l2) (loc_comment l2)
              (Some (u_login r2)) (Some (u_email r2))] in
  db_reliable self →
  stored_user st uuid = Some user →
  holders st key uuid = [l1; l2] →
  stored_user st (loc_uuid l1) = Some r1 →
  stored_user st (loc_uuid l2) = Some r2 →
  map fst (renders tr) =
    "added-key" :: (if privileged user then ["oper-added-key"] else []) ∧
  rendered_locations tr =
    VLocations joined :: (if privileged user then [VLocations joined] else []) ∧
  contacts joined =
    [(Some (u_login r1), Some (u_email r1));
     (Some (u_login r2), Some (u_email r2))] ∧
  (∀ st', db_users st' = db_users st → db_keys st' ≡ₚ db_keys st →
     ∃ joined',
       rendered_locations
         (emitted (addedKey self when uuid key name otherKeys) st') =
         VLocations joined' ::
         (if privileged user then [VLocations joined'] else []) ∧
       contacts joined' ≡ₚ contacts joined).
Proof.
  intros tr joined Hrel Hrow Hholders Hr1 Hr2.
  assert (Forall (λ l, is_Some (stored_user st (loc_uuid l)))
                 (holders st key uuid)) as Hall.
  { rewrite Hholders. repeat constructor; by eexists. }
  assert (map (join_user st) (holders st key uuid) = joined) as Hjoin.
  { rewrite Hholders. simpl. unfold join_user. by rewrite Hr1, Hr2. }
  destruct (addedKey_rendered self st when uuid key name otherKeys user
              Hrel Hrow Hall) as [Htpl Hlocs].
  rewrite Hjoin in Hlocs.
  split; [done|]. split; [done|]. split; [done|].
  intros st' Husers Hkeys.
  pose proof (holders_Permutation st st' key uuid Hkeys) as Hperm.
  assert (stored_user st' uuid = Some user) as Hrow'.
  { unfold stored_user. by rewrite Husers. }
  assert (Forall (λ l, is_Some (stored_user st' (loc_uuid l)))
                 (holders st' key uuid)) as Hall'.
  { rewrite Hperm. unfold stored_user. by rewrite Husers. }
  destruct (addedKey_rendered self st' when uuid key name otherKeys user
              Hrel Hrow' Hall') as [_ Hlocs'].
  eexists. split; [exact Hlocs'|].
  rewrite <- Hjoin. unfold contacts.
  apply Permutation_map.
  rewrite (map_ext _ _ (λ l, join_user_same_users st st' l Husers)).
  by apply Permutation_map.
Qed.

Lemma key_added_joins_other_holders_witness :
  let joined :=
    [Location "u-bob" "laptop" "bob@laptop" (Some "bob")
              (Some "bob@example.com");
     Location "u-carol" "desk" "carol@desk" (Some "carol")
              (Some "carol@example.com")] in
  rendered_locations
    (emitted (addedKey sample_self 0 "u-alice" sample_key "laptop" [])
             sample_state) = [VLocations joined] ∧
  ∃ joined',
    rendered_locations
      (emitted (addedKey sample_self 0 "u-alice" sample_key "laptop" [])
               shuffled_state) = [VLocations joined'] ∧
    contacts joined' ≡ₚ contacts joined.
Proof.
  destruct (key_added_joins_other_holders sample_self sample_state 0
              "u-alice" sample_key "laptop" [] alice
              (Location "u-bob" "laptop" "bob@laptop" None None)
              (Location "u-carol" "desk" "carol@desk" None None)
              bob carol) as (_ & Hlocs & _ & Horder).
  - intros n. reflexivity.
  - reflexivity.
  - reflexivity.
  - reflexivity.
  - reflexivity.
  - split; [exact Hlocs|].
    apply (Horder shuffled_state).
    + reflexivity.
    + exact (Permutation_sym (Permutation_rev sample_keys)).
Defined.

(** ** Failing lookups *)

(** Every handler logs the failure of its first lookup, once, and stops. *)
Lemma first_lookup_failure_logged (self : Notifier) (n : notification)
    (st : state) :
  looks_up n = true →
  db_faults self (db_lookups st) = true →
  emitted (handle self n) st =
    [ELogError "failed reading from db" ["SQLITE_ERROR"]].
Proof.
  intros Hn Hfail.
  destruct n; try discriminate Hn; simpl handle;
    unfold readerAdded, roleoperAdded, readerRemoved, roleoperRemoved,
      ufdsKeyMismatch, changedLogin, changedPassword, changedEmail, addedKey,
      addedKey_stages, getUser, deletedKey, operatorAdded, operatorRemoved;
    simpl vasync_pipeline; run; rewrite Hfail; run; done.
Qed.

(** C6 fails on the code at these inputs.  When the second lookup of the
    key-added handler (the [keys] query of findKeys) or its third one (a
    [users] query of fetchOtherUser) fails, no mail is sent but nothing is
    logged either; when the [keys] query of the operator-added handler
    fails, nothing is logged and the alert is rendered with [keys]
    undefined and sent. *)
Theorem lookup_failure_not_logged :
  let find_fails :=
    emitted (addedKey flaky_self 0 "u-alice" sample_key "laptop" [])
            sample_state in
  let fetch_fails :=
    emitted (addedKey flaky3_self 0 "u-alice" sample_key "laptop" [])
            sample_state in
  let keys_fail :=
    emitted (operatorAdded flaky_self 0 "u-bob" None) sample_state in
  (sent_mails find_fails = [] ∧ error_logs find_fails = []) ∧
  (sent_mails fetch_fails = [] ∧ error_logs fetch_fails = []) ∧
  (error_logs keys_fail = [] ∧
   rendered_keys keys_fail = [VUndefined] ∧
   map mail_subject (sent_mails keys_fail) =
     ["[OPS] New operator account bob"]).
Proof. vm_compute. repeat split. Qed.

(** * Further properties of the handlers *)

(** ** Handlers with one lookup *)

(** X1 (changedLogin): a login change never calls [userMail]; it calls
    [operatorMail] once, with the old login in the subject, exactly when the
    stored user is active, whatever the role flags and the whitelist. *)
Theorem login_change_alerts_for_active_user
    (self : Notifier) (st : state) (when : Z)
    (uuid oldLogin newLogin email : string) (row : user_row) :
  let tr := emitted (changedLogin self when uuid oldLogin newLogin email) st in
  next_lookup_ok self st →
  stored_user st uuid = Some row →
  user_calls tr = [] ∧
  operator_subjects tr =
    (if disabled row then []
     else ["Account " +:+ oldLogin +:+ " login name changed"]) ∧
  rendered_var "email" tr = (if disabled row then [] else [VStr email]).
Proof.
  intros tr Hok Hrow. subst tr.
  unfold next_lookup_ok, stored_user, changedLogin in *.
  unfold operator_subjects, rendered_var.
  run. rewrite Hok, Hrow. run.
  destruct (disabled row); simpl; [done|].
  unfold ambient. repeat (rewrite lookup_insert_ne by discriminate).
  rewrite lookup_insert_eq. mail_cases.
Qed.

Lemma login_change_alerts_for_active_user_witness :
  let tr := emitted (changedLogin sample_self 0 "u-alice" "alice" "alicia"
                       "x@example.com") sample_state in
  user_calls tr = [] ∧
  operator_subjects tr = ["Account alice login name changed"] ∧
  rendered_var "email" tr = [VStr "x@example.com"].
Proof.
  apply (login_change_alerts_for_active_user sample_self sample_state 0
           "u-alice" "alice" "alicia" "x@example.com" alice).
  - reflexivity.
  - reflexivity.
Defined.

(** X2 (deletedUser): the handler works on the user object it is given and
    never queries the row store; it does nothing at all for a user without
    role flag, and calls [operatorMail] once, never [userMail], for a
    privileged one. *)
Theorem user_deletion_alerts_for_privileged_user
    (self : Notifier) (st : state) (when : Z) (uuid : string)
    (user : user_row) :
  let tr := emitted (deletedUser self when uuid user) st in
  db_lookups (exec (deletedUser self when uuid user) st) = db_lookups st ∧
  user_calls tr = [] ∧
  operator_subjects tr =
    (if privileged user
     then ["Operator account " +:+ u_login user +:+ " deleted"] else []) ∧
  (privileged user = false →
   tr = [] ∧ exec (deletedUser self when uuid user) st = st).
Proof.
  intros tr. subst tr. unfold deletedUser, operator_subjects.
  run. destruct (privileged user); simpl; run; [|done].
  repeat split; [mail_cases..|done].
Qed.

(** X3 (missing row): when the first lookup of a handler succeeds but finds
    no row for the subject uuid, the handler logs one error that names the
    uuid and does nothing else: no template is rendered, no mail helper is
    called, and no further lookup is issued. *)
Theorem missing_subject_is_logged
    (self : Notifier) (n : notification) (uuid : string) (st : state) :
  subject_of n = Some uuid →
  next_lookup_ok self st →
  stored_user st uuid = None →
  (∃ msg, emitted (handle self n) st = [ELogError msg [uuid]]) ∧
  result (handle self n) st = Done tt ∧
  exec (handle self n) st = bump st.
Proof.
  unfold next_lookup_ok, stored_user. intros Hn Hok Hnone.
  destruct n; try discriminate Hn; injection Hn as ->; simpl handle;
    unfold readerAdded, roleoperAdded, readerRemoved, roleoperRemoved,
      changedLogin, changedPassword, changedEmail, addedKey,
      addedKey_stages, getUser, deletedKey, operatorAdded, operatorRemoved;
    simpl vasync_pipeline; run; rewrite Hok, Hnone; run;
    (split; [by eexists | done]).
Qed.

Lemma missing_subject_is_logged_witness :
  (∃ msg, emitted (handle sample_self (KeyAdded 0 "u-dave" sample_key "k" []))
            sample_state = [ELogError msg ["u-dave"]]) ∧
  result (handle sample_self (KeyAdded 0 "u-dave" sample_key "k" []))
         sample_state = Done tt ∧
  exec (handle sample_self (KeyAdded 0 "u-dave" sample_key "k" []))
       sample_state = bump sample_state.
Proof.
  apply (missing_subject_is_logged sample_self
           (KeyAdded 0 "u-dave" sample_key "k" []) "u-dave" sample_state).
  - reflexivity.
  - reflexivity.
  - reflexivity.
Defined.

(** ** Group membership alerts *)

(** X4 (operatorAdded, readerAdded, roleoperAdded): when the user is stored
    and both lookups succeed, the handler always calls [operatorMail] once
    and never [userMail], whatever the status, the flags and the whitelist
    of the user; the template gets the rows of the [keys] table of the user
    and the group 'operator' (the default), 'reader' or 'role-operator'. *)
Theorem group_addition_always_alerts
    (self : Notifier) (st : state) (n : notification) (when : Z)
    (uuid : string) (group : option string) (row : user_row) :
  let tr := emitted (handle self n) st in
  n = OperatorAdded when uuid group ∨ n = ReaderAdded when uuid ∨
    n = RoleoperAdded when uuid →
  next_lookup_ok self st →
  next_lookup_ok self (bump st) →
  stored_user st uuid = Some row →
  user_calls tr = [] ∧
  operator_subjects tr = ["New operator account " +:+ u_login row] ∧
  map fst (renders tr) = ["new-operator"] ∧
  rendered_var "keys" tr = [VKeyRows (keys_of st uuid)] ∧
  rendered_var "group" tr = [VStr (default "" (group_of n))] ∧
  db_lookups (exec (handle self n) st) = S (S (db_lookups st)).
Proof.
  intros tr Hn Hok1 Hok2 Hrow. subst tr.
  unfold next_lookup_ok, stored_user, operator_subjects, rendered_var,
    keys_of in *. simpl in Hok2.
  destruct Hn as [-> | [-> | ->]]; simpl handle;
    unfold readerAdded, roleoperAdded, operatorAdded;
    run; rewrite Hok1, Hrow; run; simpl db_lookups; rewrite Hok2; run;
    unfold ambient;
    repeat split; mail_cases; simpl;
    repeat (rewrite lookup_insert_ne by discriminate);
    by rewrite lookup_insert_eq.
Qed.

Lemma group_addition_always_alerts_witness :
  let tr := emitted (handle sample_self (ReaderAdded 0 "u-carol"))
                    sample_state in
  user_calls tr = [] ∧
  operator_subjects tr = ["New operator account carol"] ∧
  map fst (renders tr) = ["new-operator"] ∧
  rendered_var "keys" tr =
    [VKeyRows [KeyRow "u-carol" "aa:bb:cc" "desk" "carol@desk"]] ∧
  rendered_var "group" tr = [VStr "reader"] ∧
  db_lookups (exec (handle sample_self (ReaderAdded 0 "u-carol"))
                   sample_state) = 2.
Proof.
  apply (group_addition_always_alerts sample_self sample_state
           (ReaderAdded 0 "u-carol") 0 "u-carol" None carol).
  - right. left. reflexivity.
  - reflexivity.
  - reflexivity.
  - reflexivity.
Defined.

(** X5 (operatorRemoved, readerRemoved, roleoperRemoved): when the user is
    stored and the lookup succeeds, the handler always calls [operatorMail]
    once and never [userMail]; it renders 'deleted-operator' with the group
    'operator' (the default), 'reader' or 'role-operator', and issues this
    one lookup only. *)
Theorem group_removal_always_alerts
    (self : Notifier) (st : state) (n : notification) (when : Z)
    (uuid : string) (group : option string) (row : user_row) :
  let tr := emitted (handle self n) st in
  n = OperatorRemoved when uuid group ∨ n = ReaderRemoved when uuid ∨
    n = RoleoperRemoved when uuid →
  next_lookup_ok self st →
  stored_user st uuid = Some row →
  user_calls tr = [] ∧
  operator_subjects tr = ["Demoted operator account " +:+ u_login row] ∧
  map fst (renders tr) = ["deleted-operator"] ∧
  rendered_var "group" tr = [VStr (default "" (group_of n))] ∧
  db_lookups (exec (handle self n) st) = S (db_lookups st).
Proof.
  intros tr Hn Hok Hrow. subst tr.
  unfold next_lookup_ok, stored_user, operator_subjects, rendered_var in *.
  destruct Hn as [-> | [-> | ->]]; simpl handle;
    unfold readerRemoved, roleoperRemoved, operatorRemoved;
    run; rewrite Hok, Hrow; run;
    unfold ambient;
    repeat split; mail_cases; simpl;
    repeat (rewrite lookup_insert_ne by discriminate);
    by rewrite lookup_insert_eq.
Qed.

Lemma group_removal_always_alerts_witness :
  let tr := emitted (handle sample_self (OperatorRemoved 0 "u-bob" None))
                    sample_state in
  user_calls tr = [] ∧
  operator_subjects tr = ["Demoted operator account bob"] ∧
  map fst (renders tr) = ["deleted-operator"] ∧
  rendered_var "group" tr = [VStr "operator"] ∧
  db_lookups (exec (handle sample_self (OperatorRemoved 0 "u-bob" None))
                   sample_state) = 1.
Proof.
  apply (group_removal_always_alerts sample_self sample_state
           (OperatorRemoved 0 "u-bob" None) 0 "u-bob" None bob).
  - left. reflexivity.
  - reflexivity.
  - reflexivity.
Defined.

(** X6 (weirdGroupMemberAdded, weirdGroupMemberRemoved): the two handlers
    never query the row store; from every state they call [operatorMail]
    exactly once and never [userMail], and the group named in the subject
    and handed to the template is 'operators' when none is given. *)
Theorem unknown_member_always_alerts
    (self : Notifier) (st : state) (when : Z) (dn : string)
    (group : option string) (err : string) :
  let added := weirdGroupMemberAdded self when dn group err in
  let removed := weirdGroupMemberRemoved self when dn group err in
  let g := default "operators" group in
  (db_lookups (exec added st) = db_lookups st ∧
   user_calls (emitted added st) = [] ∧
   operator_subjects (emitted added st) =
     ["Unknown DN added to group " +:+ g] ∧
   rendered_var "group" (emitted added st) = [VStr g] ∧
   rendered_var "dn" (emitted added st) = [VStr dn]) ∧
  (db_lookups (exec removed st) = db_lookups st ∧
   user_calls (emitted removed st) = [] ∧
   operator_subjects (emitted removed st) =
     ["Unknown DN removed from group " +:+ g] ∧
   rendered_var "group" (emitted removed st) = [VStr g] ∧
   rendered_var "dn" (emitted removed st) = [VStr dn]).
Proof.
  intros added removed g. subst added removed g.
  unfold weirdGroupMemberAdded, weirdGroupMemberRemoved, weird_args,
    operator_subjects, rendered_var.
  run. unfold ambient.
  repeat split; mail_cases; simpl;
    repeat (rewrite lookup_insert_ne by discriminate);
    by rewrite lookup_insert_eq.
Qed.

(** ** Recipients and subjects of the account-change mails *)

(** X7 (changedEmail): the user mail of an email change goes to the old and
    the new address of the event, not to the address stored in the row; it
    is sent exactly when the uuid passes the whitelist and the stored user
    is active. *)
Theorem email_change_notifies_both_addresses
    (self : Notifier) (st : state) (when : Z)
    (uuid oldEmail newEmail : string) (row : user_row) :
  let tr := emitted (changedEmail self when uuid oldEmail newEmail) st in
  next_lookup_ok self st →
  stored_user st uuid = Some row →
  user_subjects tr =
    (if whitelisted self uuid && negb (disabled row)
     then [(Many [oldEmail; newEmail], "Your email address has been changed")]
     else []) ∧
  rendered_var "oldEmail" tr =
    VStr oldEmail :: (if privileged row then [VStr oldEmail] else []) ∧
  rendered_var "newEmail" tr =
    VStr newEmail :: (if privileged row then [VStr newEmail] else []).
Proof.
  intros tr Hok Hrow. subst tr.
  unfold next_lookup_ok, stored_user, changedEmail in *.
  unfold user_subjects, rendered_var.
  run. rewrite Hok, Hrow. run. unfold ambient.
  destruct (whitelisted self uuid && negb (disabled row)), (privileged row);
    repeat split; mail_cases; simpl;
    repeat (rewrite lookup_insert_ne by discriminate);
    rewrite ?lookup_insert_eq; try done;
    repeat (rewrite lookup_insert_ne by discriminate);
    by rewrite ?lookup_insert_eq.
Qed.

Lemma email_change_notifies_both_addresses_witness :
  let tr := emitted (changedEmail sample_self 0 "u-alice" "old@example.com"
                       "new@example.com") sample_state in
  user_subjects tr =
    [(Many ["old@example.com"; "new@example.com"],
      "Your email address has been changed")] ∧
  rendered_var "oldEmail" tr = [VStr "old@example.com"] ∧
  rendered_var "newEmail" tr = [VStr "new@example.com"].
Proof.
  apply (email_change_notifies_both_addresses sample_self sample_state 0
           "u-alice" "old@example.com" "new@example.com" alice).
  - reflexivity.
  - reflexivity.
Defined.

(** X8 (deletedKey, addedKey): for a stored user the two key handlers call
    [userMail] with the stored email and the stored login in the subject
    exactly when the uuid passes the whitelist and the user is active, and
    [operatorMail] exactly when a role flag is set; the key-added handler
    does so once its lookups have all succeeded. *)
Theorem key_events_follow_the_account_policy
    (self : Notifier) (st : state) (when : Z) (uuid name : string)
    (key : sshkey) (otherKeys : list sshkey) (row : user_row) :
  let dk := emitted (deletedKey self when uuid key name otherKeys) st in
  let ak := emitted (addedKey self when uuid key name otherKeys) st in
  db_reliable self →
  stored_user st uuid = Some row →
  (user_subjects dk =
     (if whitelisted self uuid && negb (disabled row)
      then [(One (u_email row),
             "SSH key deleted from account " +:+ u_login row)] else []) ∧
   operator_subjects dk =
     (if privileged row
      then ["SSH key deleted from operator " +:+ u_login row] else [])) ∧
  (Forall (λ l, is_Some (stored_user st (loc_uuid l))) (holders st key uuid) →
   user_subjects ak =
     (if whitelisted self uuid && negb (disabled row)
      then [(One (u_email row),
             "New SSH key added to account " +:+ u_login row)] else []) ∧
   operator_subjects ak =
     (if privileged row
      then ["SSH key added to operator " +:+ u_login row] else [])).
Proof.
  intros dk ak Hrel Hrow. subst dk ak.
  unfold user_subjects, operator_subjects. split.
  - destruct (deletedKey_found self st when uuid key name otherKeys row
                (Hrel _) Hrow) as (a & t & o & ->).
    rewrite emitted_userMail, emitted_operatorMail.
    destruct (whitelisted self uuid && negb (disabled row)), (privileged row);
      split; mail_cases.
  - intros Hall.
    destruct (addedKey_found self st when uuid key name otherKeys row
                Hrel Hrow Hall) as (t & o & _ & ->).
    rewrite emitted_userMail, emitted_operatorMail.
    destruct (whitelisted self uuid && negb (disabled row)), (privileged row);
      split; mail_cases.
Qed.

Lemma key_events_follow_the_account_policy_witness :
  let dk := emitted (deletedKey sample_self 0 "u-bob" sample_key "laptop" [])
                    sample_state in
  let ak := emitted (addedKey sample_self 0 "u-bob" sample_key "laptop" [])
                    sample_state in
  (user_subjects dk =
     [(One "bob@example.com", "SSH key deleted from account bob")] ∧
   operator_subjects dk = ["SSH key deleted from operator bob"]) ∧
  (user_subjects ak =
     [(One "bob@example.com", "New SSH key added to account bob")] ∧
   operator_subjects ak = ["SSH key added to operator bob"]).
Proof.
  destruct (key_events_follow_the_account_policy sample_self sample_state 0
              "u-bob" "laptop" sample_key [] bob) as [Hdk Hak].
  - intros n. reflexivity.
  - reflexivity.
  - split; [exact Hdk|]. apply Hak.
    repeat constructor; by eexists.
Defined.

(** X9 (whitelist test): the test of the four account-change handlers
    passes exactly when the whitelist is absent, empty, or contains the
    uuid. *)
Theorem whitelisted_iff (self : Notifier) (uuid : string) :
  whitelisted self uuid = true ↔
  no_whitelist self ∨ ∃ wl, whitelist (config self) = Some wl ∧ uuid ∈ wl.
Proof.
  split.
  - intros Hw. destruct (whitelist (config self)) as [wl|] eqn:Hwl.
    + destruct wl as [|x wl]; [left; right; by rewrite Hwl|].
      right. exists (x :: wl). split; [done|].
      destruct (decide (uuid ∈ x :: wl)) as [|Hnot]; [done|].
      rewrite (whitelisted_excluded self uuid (x :: wl)) in Hw; done.
    + left. left. done.
  - intros [Hnone | (wl & Hwl & Hin)].
    + by apply whitelisted_unrestricted.
    + by apply (whitelisted_member self uuid wl).
Qed.

(** ** More on key-mismatch suppression *)

(** X10 (ufdsKeyMismatch): when the metadata lookup fails, the handler logs
    the failure and stops: no alert, no upsert, and neither the persisted
    nor the in-memory timestamp changes, so the window is not restarted. *)
Theorem failed_read_keeps_suppression_state
    (self : Notifier) (st : state) (now : Z) (fp : string) (k : sshkey) :
  let m := ufdsKeyMismatch self now fp k in
  db_faults self (db_lookups st) = true →
  emitted m st = [ELogError "failed reading from db" ["SQLITE_ERROR"]] ∧
  db_metadata (exec m st) = db_metadata st ∧
  lastKeyMismatch (exec m st) = lastKeyMismatch st ∧
  recorded_last (exec m st) = recorded_last st.
Proof.
  intros m Hfail. subst m. unfold ufdsKeyMismatch, recorded_last.
  run. rewrite Hfail. run. done.
Qed.

Lemma failed_read_keeps_suppression_state_witness :
  let m := ufdsKeyMismatch flaky_self 0 "fp" sample_key in
  let st := bump sample_state in
  emitted m st = [ELogError "failed reading from db" ["SQLITE_ERROR"]] ∧
  db_metadata (exec m st) = db_metadata st ∧
  lastKeyMismatch (exec m st) = lastKeyMismatch st ∧
  recorded_last (exec m st) = recorded_last st.
Proof.
  apply (failed_read_keeps_suppression_state flaky_self (bump sample_state)
           0 "fp" sample_key).
  reflexivity.
Defined.

Lemma handle_all_app (self : Notifier) (ns1 ns2 : list notification) st :
  handle_all self (ns1 ++ ns2) st =
  handle_all self ns1 st ++ handle_all self ns2 (exec_all self ns1 st).
Proof.
  revert st. induction ns1 as [|n ns1 IH]; intros st; [done|].
  simpl. by rewrite IH, app_assoc.
Qed.

Lemma alerts_app (tr1 tr2 : list event) :
  alerts (tr1 ++ tr2) = alerts tr1 + alerts tr2.
Proof. unfold alerts, operator_calls. by rewrite omap_app, length_app. Qed.

Lemma last_nonempty {A} (a : A) (l : list A) (d d' : A) :
  List.last (a :: l) d = List.last (a :: l) d'.
Proof.
  revert a. induction l as [|b l IH]; intros a; [done|].
  change (List.last (b :: l) d = List.last (b :: l) d'). apply IH.
Qed.

Lemma mismatches_suppressed (self : Notifier) fp k (ts : list Z) :
  db_reliable self →
  ∀ st t, recorded_last st = Some t → close_after t ts →
    alerts (handle_all self (mismatches fp k ts) st) = 0 ∧
    recorded_last (exec_all self (mismatches fp k ts) st) =
      Some (List.last ts t).
Proof.
  intros Hrel. induction ts as [|t' ts IH]; intros st t Hlast Hclose.
  - done.
  - destruct Hclose as [Hgap Hclose]. simpl mismatches. simpl handle_all.
    simpl exec_all. simpl handle.
    assert (alerts (emitted (ufdsKeyMismatch self t' fp k) st) = 0) as Hnone.
    { unfold alerts. rewrite ufdsKeyMismatch_alerts by apply Hrel.
      rewrite Hlast. simpl.
      by destruct (Z.ltb_spec (4 * 3600 * 1000) (t' - t)); [lia|]. }
    destruct (IH (exec (ufdsKeyMismatch self t' fp k) st) t') as [Hrest Hend];
      [by apply ufdsKeyMismatch_recorded, Hrel | done |].
    rewrite alerts_app, Hnone. split; [done|].
    fold (mismatches fp k ts). rewrite Hend.
    destruct ts as [|t'' ts]; [done|]. f_equal.
    change (List.last (t'' :: ts) t' = List.last (t'' :: ts) t).
    apply last_nonempty.
Qed.

(** X11 (ufdsKeyMismatch): the window slides.  In a run of key-mismatch
    events each at most four hours after the one before it, only the first
    event can alert (it does when it is due): however long the run lasts,
    it yields at most one alert, and the recorded timestamp ends as the
    time of the last event. *)
Theorem steady_mismatches_alert_once
    (self : Notifier) (st : state) (fp : string) (k : sshkey)
    (t : Z) (ts : list Z) :
  db_reliable self →
  close_after t ts →
  alerts (handle_all self (mismatches fp k (t :: ts)) st) =
    (if mismatch_due (recorded_last st) t then 1 else 0) ∧
  recorded_last (exec_all self (mismatches fp k (t :: ts)) st) =
    Some (List.last ts t).
Proof.
  intros Hrel Hclose. simpl mismatches. simpl handle_all. simpl exec_all.
  simpl handle. fold (mismatches fp k ts).
  destruct (mismatches_suppressed self fp k ts Hrel
              (exec (ufdsKeyMismatch self t fp k) st) t) as [Hrest Hend];
    [by apply ufdsKeyMismatch_recorded, Hrel | done |].
  rewrite alerts_app, Hrest, Hend. split; [|done].
  unfold alerts. rewrite ufdsKeyMismatch_alerts by apply Hrel.
  by destruct (mismatch_due _ t).
Qed.

Lemma steady_mismatches_alert_once_witness :
  alerts (handle_all sample_self
            (mismatches "fp" sample_key
               [0; 3 * hour; 6 * hour; 9 * hour; 12 * hour])%Z
            sample_state) = 1 ∧
  recorded_last (exec_all sample_self
                   (mismatches "fp" sample_key
                      [0; 3 * hour; 6 * hour; 9 * hour; 12 * hour])%Z
                   sample_state) = Some (12 * hour)%Z.
Proof.
  apply (steady_mismatches_alert_once sample_self sample_state "fp"
           sample_key 0 [3 * hour; 6 * hour; 9 * hour; 12 * hour]%Z).
  - intros n. reflexivity.
  - unfold hour. simpl. lia.
Defined.

(** X12 (ufdsKeyMismatch): once the [metadata] row exists, only the
    persisted timestamp decides, whatever [this.lastKeyMismatch] holds: a
    Notifier created over a store whose timestamp is at most four hours old
    does not alert on its first event; without a row, the in-memory
    timestamp decides. *)
Theorem persisted_timestamp_governs
    (self : Notifier) (st : state) (now : Z) (fp : string) (k : sshkey) :
  let m := ufdsKeyMismatch self now fp k in
  next_lookup_ok self st →
  (∀ v, db_metadata st !! "last_key_mismatch" = Some v →
     alerts (emitted m st) = (if (4 * 3600 * 1000 <? now - v)%Z then 1 else 0)) ∧
  (db_metadata st !! "last_key_mismatch" = None →
     alerts (emitted m st) =
       (if mismatch_due (lastKeyMismatch st) now then 1 else 0)) ∧
  (∀ us ks md v,
     st = new_Notifier us ks md → md !! "last_key_mismatch" = Some v →
     (now - v ≤ 4 * 3600 * 1000)%Z → alerts (emitted m st) = 0).
Proof.
  intros m Hok. subst m. unfold alerts.
  rewrite ufdsKeyMismatch_alerts by done. unfold recorded_last.
  split; [|split].
  - intros v ->. simpl. by destruct (_ <? _)%Z.
  - intros ->. by destruct (mismatch_due _ now).
  - intros us ks md v -> Hv Hgap. simpl. rewrite Hv. simpl.
    by destruct (Z.ltb_spec (4 * 3600 * 1000) (now - v)); [lia|].
Qed.

Lemma persisted_timestamp_governs_witness :
  alerts (emitted (ufdsKeyMismatch sample_self (2 * hour) "fp" sample_key)
            (new_Notifier [] [] {["last_key_mismatch" := hour]})) = 0.
Proof.
  destruct (persisted_timestamp_governs sample_self
              (new_Notifier [] [] {["last_key_mismatch" := hour]})
              (2 * hour) "fp" sample_key) as (_ & _ & Hrestart).
  - reflexivity.
  - apply (Hrestart [] [] {["last_key_mismatch" := hour]} hour).
    + reflexivity.
    + reflexivity.
    + unfold hour. lia.
Defined.

(** ** What the handlers keep of the state *)

Section Keeps.
Context (self : Notifier) (I : state → Prop).
Hypothesis Hbump : ∀ st, I st → I (bump st).
Hypothesis Hcached : ∀ tpl st, I st → I (cached self tpl st).

Lemma keeps_ret {A} (a : A) : keeps I (mret a : M A).
Proof. by intros st. Qed.

Lemma keeps_throw {A} msg : keeps I (throw msg : M A).
Proof. by intros st. Qed.

Lemma keeps_gets {A} (f : state → A) : keeps I (gets f).
Proof. by intros st. Qed.

Lemma keeps_emit e : keeps I (emit e).
Proof. by intros st. Qed.

Lemma keeps_bind {A B} (m : M A) (k : A → M B) :
  keeps I m → (∀ a, keeps I (k a)) → keeps I (m ≫= k).
Proof.
  intros Hm Hk st Hst. rewrite exec_bind.
  destruct (result m st); [apply Hk|]; by apply Hm.
Qed.

Lemma keeps_db_lookup {A} (v : state → A) : keeps I (db_lookup self v).
Proof. intros st Hst. rewrite exec_db_lookup. by apply Hbump. Qed.

Lemma keeps_render tpl args : keeps I (render self tpl args).
Proof. intros st Hst. rewrite exec_render. by apply Hcached. Qed.

Lemma keeps_operatorMail subject text :
  keeps I (operatorMail self subject text).
Proof. intros st Hst. by rewrite exec_operatorMail. Qed.

Lemma keeps_userMail to subject text : keeps I (userMail self to subject text).
Proof. intros st Hst. by rewrite exec_userMail. Qed.

Lemma keeps_when (b : bool) (m : M unit) : keeps I m → keeps I (when_ b m).
Proof. intros Hm st Hst. rewrite exec_when. destruct b; [by apply Hm|done]. Qed.

Lemma keeps_pipeline (funcs : list stage) :
  Forall (λ f : stage, ∀ arg, keeps I (f arg)) funcs →
  ∀ arg, keeps I (vasync_pipeline funcs arg).
Proof.
  induction 1 as [|f funcs Hf _ IH]; intros arg; simpl.
  - apply keeps_ret.
  - apply keeps_bind; [apply Hf|].
    intros [err|arg']; [apply keeps_ret | apply IH].
Qed.

Lemma keeps_forEachPipeline {A} (func : A → M (string + A)) inputs :
  (∀ x, keeps I (func x)) → keeps I (vasync_forEachPipeline func inputs).
Proof.
  intros Hf. induction inputs as [|x inputs IH]; simpl.
  - apply keeps_ret.
  - apply keeps_bind; [apply Hf|].
    intros [err|x']; [apply keeps_ret|].
    apply keeps_bind; [apply IH|].
    intros [err|rest']; apply keeps_ret.
Qed.
End Keeps.

(** One step of a proof of [keeps]; the upsert and the assignment of
    [lastKeyMismatch] are left to the caller. *)
Ltac keeps_step :=
  match goal with
  | |- keeps _ (mret _) => apply keeps_ret
  | |- keeps _ (ret _) => apply keeps_ret
  | |- keeps _ (throw _) => apply keeps_throw
  | |- keeps _ (gets _) => apply keeps_gets
  | |- keeps _ (emit _) => apply keeps_emit
  | |- keeps _ (db_lookup _ _) => apply keeps_db_lookup
  | |- keeps _ (render _ _ _) => apply keeps_render
  | |- keeps _ (operatorMail _ _ _) => apply keeps_operatorMail
  | |- keeps _ (userMail _ _ _ _) => apply keeps_userMail
  | |- keeps _ (when_ _ _) => apply keeps_when
  | |- keeps _ (vasync_pipeline _ _) => apply keeps_pipeline
  | |- keeps _ (vasync_forEachPipeline _ _) =>
      apply keeps_forEachPipeline; intros ?
  | |- keeps _ (_ ≫= _) => apply keeps_bind; [|intros ?]
  | |- keeps _ (match ?x with _ => _ end) => destruct x eqn:?
  | |- Forall _ [] => apply Forall_nil_2
  | |- Forall _ (_ :: _) => apply Forall_cons_2; [intros ?|]
  end.

Ltac keeps_unfold :=
  unfold handle, readerAdded, roleoperAdded, readerRemoved, roleoperRemoved,
    ufdsKeyMismatch, changedLogin, changedPassword, changedEmail, deletedUser,
    addedKey, addedKey_stages, getUser, findKeys, getOtherUsers,
    fetchOtherUser, sendMail, deletedKey, operatorAdded, operatorRemoved,
    weirdGroupMemberAdded, weirdGroupMemberRemoved,
    db_get_user, db_get_metadata, db_all_keys_by_fingerprint,
    db_all_keys_by_uuid, log_db_error.

(** A handler keeps whatever the lookups, the template cache, the upsert of
    the key-mismatch timestamp and the assignment of [lastKeyMismatch]
    keep. *)
Lemma handle_keeps (self : Notifier) (I : state → Prop) (n : notification) :
  (∀ st, I st → I (bump st)) →
  (∀ tpl st, I st → I (cached self tpl st)) →
  (is_key_mismatch n = true →
   (∀ now, keeps I (db_run_metadata "last_key_mismatch" now)) ∧
   (∀ now, keeps I (set_lastKeyMismatch now))) →
  keeps I (handle self n).
Proof.
  intros Hbump Hcached Hmis.
  destruct n; keeps_unfold;
    repeat (keeps_step; try done).
  all: by apply Hmis.
Qed.

Lemma exec_all_keeps (self : Notifier) (I : state → Prop)
    (ns : list notification) (st : state) :
  (∀ n, n ∈ ns → keeps I (handle self n)) →
  I st → I (exec_all self ns st).
Proof.
  revert st. induction ns as [|n ns IH]; intros st Hns Hst; [done|].
  simpl. apply IH.
  - intros n' Hin. apply Hns. by right.
  - apply Hns; [left|done].
Qed.

(** X13 (all handlers): the row store is read-only but for one row.
    Whatever notifications are handled, the [users] and [keys] tables are
    unchanged and so is every [metadata] row other than
    'last_key_mismatch'; and as long as no key-mismatch event is among
    them, the whole [metadata] table and [this.lastKeyMismatch] are
    unchanged too. *)
Theorem row_store_is_read_only
    (self : Notifier) (ns : list notification) (st : state) :
  same_tables st (exec_all self ns st) ∧
  same_other_metadata st (exec_all self ns st) ∧
  (Forall (λ n, is_key_mismatch n = false) ns →
   same_suppression st (exec_all self ns st)).
Proof.
  split; [|split].
  - apply (exec_all_keeps self (same_tables st)); [|done].
    intros n _. apply handle_keeps; try done.
    intros _. split; intros now st' Hst'; exact Hst'.
  - apply (exec_all_keeps self (same_other_metadata st)); [|done].
    intros n _. apply handle_keeps; try done.
    intros _. split; intros now st' Hst' key Hkey; simpl.
    + rewrite lookup_insert_ne by done. by apply Hst'.
    + by apply Hst'.
  - intros Hns.
    apply (exec_all_keeps self (same_suppression st)); [|done].
    intros n Hin. apply handle_keeps; try done.
    intros Hmis. rewrite Forall_forall in Hns.
    rewrite (Hns n Hin) in Hmis. discriminate Hmis.
Qed.

Lemma row_store_is_read_only_witness :
  same_suppression sample_state
    (exec_all sample_self
       [PasswordChanged 0 "u-bob" "b@example.com";
        KeyAdded 0 "u-alice" sample_key "laptop" [];
        OperatorAdded 0 "u-carol" None]
       sample_state).
Proof.
  destruct (row_store_is_read_only sample_self
              [PasswordChanged 0 "u-bob" "b@example.com";
               KeyAdded 0 "u-alice" sample_key "laptop" [];
               OperatorAdded 0 "u-carol" None]
              sample_state) as (_ & _ & Hsup).
  apply Hsup. repeat constructor.
Defined.

(** ** The template cache *)




(** ** Exceptions *)

Section NeverThrows.
Context (self : Notifier).

Lemma never_throws_ret {A} (a : A) : never_throws (mret a : M A).
Proof. intros st. by eexists. Qed.

Lemma never_throws_gets {A} (f : state → A) : never_throws (gets f).
Proof. intros st. by eexists. Qed.

Lemma never_throws_emit e : never_throws (emit e).
Proof. intros st. by eexists. Qed.

Lemma never_throws_db_run key value :
  never_throws (db_run_metadata key value).
Proof. intros st. by eexists. Qed.

Lemma never_throws_set_last now : never_throws (set_lastKeyMismatch now).
Proof. intros st. by eexists. Qed.

Lemma never_throws_bind {A B} (m : M A) (k : A → M B) :
  never_throws m → (∀ a, never_throws (k a)) → never_throws (m ≫= k).
Proof.
  intros Hm Hk st. rewrite result_bind.
  destruct (Hm st) as [a ->]. apply Hk.
Qed.

Lemma never_throws_db_lookup {A} (v : state → A) :
  never_throws (db_lookup self v).
Proof. intros st. rewrite result_db_lookup. by eexists. Qed.

Lemma never_throws_render tpl args : never_throws (render self tpl args).
Proof. intros st. rewrite result_render. by eexists. Qed.

Lemma never_throws_operatorMail subject text :
  never_throws (operatorMail self subject text).
Proof. intros st. rewrite result_operatorMail. by eexists. Qed.

Lemma never_throws_userMail to subject text :
  never_throws (userMail self to subject text).
Proof. intros st. rewrite result_userMail. by eexists. Qed.

Lemma never_throws_when (b : bool) (m : M unit) :
  never_throws m → never_throws (when_ b m).
Proof.
  intros Hm st. rewrite result_when. destruct b; [apply Hm | by eexists].
Qed.
End NeverThrows.

Ltac never_throws_step :=
  match goal with
  | |- never_throws (mret _) => apply never_throws_ret
  | |- never_throws (ret _) => apply never_throws_ret
  | |- never_throws (gets _) => apply never_throws_gets
  | |- never_throws (emit _) => apply never_throws_emit
  | |- never_throws (db_run_metadata _ _) => apply never_throws_db_run
  | |- never_throws (set_lastKeyMismatch _) => apply never_throws_set_last
  | |- never_throws (db_lookup _ _) => apply never_throws_db_lookup
  | |- never_throws (render _ _ _) => apply never_throws_render
  | |- never_throws (operatorMail _ _ _) => apply never_throws_operatorMail
  | |- never_throws (userMail _ _ _ _) => apply never_throws_userMail
  | |- never_throws (when_ _ _) => apply never_throws_when
  | |- never_throws (_ ≫= _) => apply never_throws_bind; [|intros ?]
  | |- never_throws (match ?x with _ => _ end) => destruct x eqn:?
  end.

Lemma sendMail_never_throws (self : Notifier) when uuid key name otherKeys
    user locs :
  never_throws
    (sendMail self when uuid key name otherKeys (PipeArg (Some user) locs)).
Proof. unfold sendMail. simpl pa_user. repeat never_throws_step. Qed.

Section AddedKeyThrows.
Context (self : Notifier).

Lemma fetchOtherUser_result st loc :
  result (fetchOtherUser self loc) st =
  (if db_faults self (db_lookups st) then Done (inl "SQLITE_ERROR")
   else match stored_user st (loc_uuid loc) with
        | Some _ => Done (inr (join_user st loc))
        | None => Throw "TypeError: Cannot read property 'login' of undefined"
        end) ∧
  exec (fetchOtherUser self loc) st = bump st.
Proof.
  unfold fetchOtherUser, join_user, stored_user. run.
  destruct (db_faults self (db_lookups st)); run; [done|].
  by destruct (find _ (db_users st)).
Qed.

Lemma forEach_fetch_throw (locs : list location) st e :
  result (vasync_forEachPipeline (fetchOtherUser self) locs) st = Throw e →
  e = "TypeError: Cannot read property 'login' of undefined" ∧
  Exists (λ l, stored_user st (loc_uuid l) = None) locs.
Proof.
  revert st. induction locs as [|l locs IH]; intros st; [done|].
  simpl vasync_forEachPipeline. rewrite result_bind.
  destruct (fetchOtherUser_result st l) as [-> ->].
  destruct (db_faults self (db_lookups st)); [done|].
  destruct (stored_user st (loc_uuid l)) as [row|] eqn:Hrow.
  - rewrite result_bind.
    destruct (result (vasync_forEachPipeline _ locs) (bump st))
      as [[err|rest]|e'] eqn:Hrest; [done..|].
    intros [= <-]. destruct (IH (bump st) Hrest) as [-> Hex].
    split; [done|]. by apply Exists_cons_tl.
  - intros [= <-]. split; [done|]. by apply Exists_cons_hd.
Qed.

Lemma getUser_result st uuid arg :
  result (getUser self uuid arg) st =
  (if db_faults self (db_lookups st) then Done (inl "SQLITE_ERROR")
   else match stored_user st uuid with
        | Some row => Done (inr (PipeArg (Some row) (pa_otherLocations arg)))
        | None => Done (inl "Not Found")
        end) ∧
  exec (getUser self uuid arg) st = bump st.
Proof.
  unfold getUser, stored_user. run.
  destruct (db_faults self (db_lookups st)); run; [done|].
  by destruct (find _ (db_users st)); run.
Qed.

Lemma findKeys_result st uuid key arg :
  result (findKeys self uuid key arg) st =
  (if db_faults self (db_lookups st) then Done (inl "SQLITE_ERROR")
   else Done (inr (PipeArg (pa_user arg) (Some (holders st key uuid))))) ∧
  exec (findKeys self uuid key arg) st = bump st.
Proof.
  unfold findKeys, holders. run.
  by destruct (db_faults self (db_lookups st)); run.
Qed.

Lemma getOtherUsers_result st user (locs : list location) :
  match result (getOtherUsers self (PipeArg user (Some locs))) st with
  | Done (inl _) => True
  | Done (inr arg') => pa_user arg' = user
  | Throw e =>
      e = "TypeError: Cannot read property 'login' of undefined" ∧
      Exists (λ l, stored_user st (loc_uuid l) = None) locs
  end.
Proof.
  unfold getOtherUsers. simpl pa_otherLocations. cbv beta iota.
  rewrite result_bind.
  destruct (result (vasync_forEachPipeline _ locs) st)
    as [[err|rest]|e] eqn:Hres; [done..|].
  by apply forEach_fetch_throw.
Qed.
End AddedKeyThrows.

(** ** Messages handed to the transport *)

Lemma sends_ok_sent_mails (self : Notifier) (tr : list event) :
  Forall (sends_ok self) tr → Forall (mail_ok self) (sent_mails tr).
Proof.
  unfold sent_mails. induction 1 as [|e tr He _ IH]; [done|].
  destruct e; simpl in *; try done. by apply Forall_cons.
Qed.

Lemma handle_sends_ok (self : Notifier) (n : notification) :
  emits (sends_ok self) (handle self n).
Proof.
  destruct n; emits_unfold; repeat emits_step; try done.
  all: simpl; split; [done|]; eexists; eauto.
Qed.

(** X16 (operatorMail, userMail and every handler): every message a
    handler hands to the transport is sent from [config.my_email] and is
    either addressed to [config.operators] with a subject that starts with
    the operator prefix, or has a subject that starts with the user
    prefix; this holds for every sequence of notifications. *)
Theorem every_mail_is_well_formed
    (self : Notifier) (ns : list notification) (st : state) :
  Forall (mail_ok self) (sent_mails (handle_all self ns st)).
Proof.
  apply sends_ok_sent_mails. revert st.
  induction ns as [|n ns IH]; intros st; [done|].
  simpl. apply Forall_app. split; [apply handle_sends_ok | apply IH].
Qed.

Section Traces.
Context (self : Notifier) (T : list event → Prop).
Hypothesis T_nil : T [].
Hypothesis T_app : ∀ tr1 tr2, T tr1 → T tr2 → T (tr1 ++ tr2).

Lemma traces_ret {A} (a : A) : traces T (mret a : M A).
Proof. by intros st. Qed.

Lemma traces_throw {A} msg : traces T (throw msg : M A).
Proof. by intros st. Qed.

Lemma traces_gets {A} (f : state → A) : traces T (gets f).
Proof. by intros st. Qed.

Lemma traces_set_last now : traces T (set_lastKeyMismatch now).
Proof. by intros st. Qed.

Lemma traces_db_lookup {A} (v : state → A) : traces T (db_lookup self v).
Proof. intros st. by rewrite emitted_db_lookup. Qed.

Lemma traces_emit e : T [e] → traces T (emit e).
Proof. by intros He st. Qed.

Lemma traces_db_run key value :
  T [EDbRun key value] → traces T (db_run_metadata key value).
Proof. by intros He st. Qed.

Lemma traces_render tpl args :
  T [ERender tpl (ambient self args)] → traces T (render self tpl args).
Proof. intros He st. by rewrite emitted_render. Qed.

Lemma traces_bind {A B} (m : M A) (k : A → M B) :
  traces T m → (∀ a, traces T (k a)) → traces T (m ≫= k).
Proof.
  intros Hm Hk st. rewrite emitted_bind.
  destruct (result m st); [|apply Hm].
  apply T_app; [apply Hm | apply Hk].
Qed.

Lemma traces_when (b : bool) (m : M unit) :
  traces T m → traces T (when_ b m).
Proof.
  intros Hm st. rewrite emitted_when. destruct b; [apply Hm | done].
Qed.

Lemma traces_pipeline (funcs : list stage) :
  Forall (λ f : stage, ∀ arg, traces T (f arg)) funcs →
  ∀ arg, traces T (vasync_pipeline funcs arg).
Proof.
  induction 1 as [|f funcs Hf _ IH]; intros arg; simpl.
  - apply traces_ret.
  - apply traces_bind; [apply Hf|].
    intros [err|arg']; [apply traces_ret | apply IH].
Qed.

Lemma traces_forEachPipeline {A} (func : A → M (string + A)) inputs :
  (∀ x, traces T (func x)) → traces T (vasync_forEachPipeline func inputs).
Proof.
  intros Hf. induction inputs as [|x inputs IH]; simpl.
  - apply traces_ret.
  - apply traces_bind; [apply Hf|].
    intros [err|x']; [apply traces_ret|].
    apply traces_bind; [apply IH|].
    intros [err|rest']; apply traces_ret.
Qed.
End Traces.

(** One step of a proof of [traces]; the mail helpers are leaves. *)
Ltac traces_step :=
  match goal with
  | |- traces _ (mret _) => apply traces_ret
  | |- traces _ (ret _) => apply traces_ret
  | |- traces _ (throw _) => apply traces_throw
  | |- traces _ (gets _) => apply traces_gets
  | |- traces _ (set_lastKeyMismatch _) => apply traces_set_last
  | |- traces _ (db_lookup _ _) => apply traces_db_lookup
  | |- traces _ (emit _) => apply traces_emit
  | |- traces _ (db_run_metadata _ _) => apply traces_db_run
  | |- traces _ (render _ _ _) => apply traces_render
  | |- traces _ (when_ _ _) => apply traces_when
  | |- traces _ (vasync_pipeline _ _) => apply traces_pipeline
  | |- traces _ (vasync_forEachPipeline _ _) =>
      apply traces_forEachPipeline; [..|intros ?]
  | |- traces _ (_ ≫= _) => apply traces_bind; [..|intros ?]
  | |- traces _ (match ?x with _ => _ end) => destruct x eqn:?
  | |- Forall _ [] => apply Forall_nil_2
  | |- Forall _ (_ :: _) => apply Forall_cons_2; [intros ?|]
  end.

Lemma balanced_app (tr1 tr2 : list event) :
  balanced tr1 → balanced tr2 → balanced (tr1 ++ tr2).
Proof.
  unfold balanced, sent_mails, operator_calls, user_calls.
  rewrite !omap_app, !length_app. lia.
Qed.

Lemma handle_balanced (self : Notifier) (n : notification) :
  initialSync (config self) = false → traces balanced (handle self n).
Proof.
  intros Hsync.
  assert (∀ subject text, traces balanced (operatorMail self subject text))
    as Hoper.
  { intros subject text st. rewrite emitted_operatorMail, Hsync.
    by destruct (mailer self _). }
  assert (∀ to subject text, traces balanced (userMail self to subject text))
    as Huser.
  { intros to subject text st. rewrite emitted_userMail, Hsync.
    by destruct (mailer self _). }
  destruct n; keeps_unfold;
    repeat (first [ apply Hoper | apply Huser | traces_step ];
            try done; try apply balanced_app).
Qed.

(** X17 (operatorMail, userMail and every handler): outside initial sync a
    handler reaches the transport only through the two helpers, and each
    call of a helper hands over exactly one message: in every sequence of
    notifications the number of [sendMail] calls is the number of
    [operatorMail] calls plus the number of [userMail] calls (nothing is
    sent twice, nothing is retried). *)
Theorem one_message_per_helper_call
    (self : Notifier) (ns : list notification) (st : state) :
  initialSync (config self) = false →
  balanced (handle_all self ns st).
Proof.
  intros Hsync. revert st.
  induction ns as [|n ns IH]; intros st; [done|].
  simpl. apply balanced_app; [by apply handle_balanced | apply IH].
Qed.

Lemma one_message_per_helper_call_witness :
  balanced
    (handle_all bouncing_self
       [PasswordChanged 0 "u-bob" "b@example.com";
        KeyMismatch 0 "fp" sample_key;
        KeyAdded 0 "u-alice" sample_key "laptop" []]
       sample_state).
Proof.
  apply (one_message_per_helper_call bouncing_self).
  reflexivity.
Defined.

(** ** Delivery failures *)

Section Agree.
Context (self : Notifier) (mailer' : mail → string + string).

Lemma agree_refl {A} (m : M A) : agree m m.
Proof. by intros st. Qed.

Lemma without_delivery_logs_app (tr1 tr2 : list event) :
  without_delivery_logs (tr1 ++ tr2) =
  without_delivery_logs tr1 ++ without_delivery_logs tr2.
Proof. apply List.filter_app. Qed.

Lemma agree_bind {A B} (m1 m2 : M A) (k1 k2 : A → M B) :
  agree m1 m2 → (∀ a, agree (k1 a) (k2 a)) → agree (m1 ≫= k1) (m2 ≫= k2).
Proof.
  intros Hm Hk st. rewrite !result_bind, !exec_bind, !emitted_bind.
  destruct (Hm st) as (Hres & Hex & Hem). rewrite Hres, Hex.
  destruct (result m2 st) as [a|e]; [|done].
  destruct (Hk a (exec m2 st)) as (-> & -> & Hem').
  by rewrite !without_delivery_logs_app, Hem, Hem'.
Qed.

Lemma agree_when (b : bool) (m1 m2 : M unit) :
  agree m1 m2 → agree (when_ b m1) (when_ b m2).
Proof. intros Hm. destruct b; [exact Hm | apply agree_refl]. Qed.

Lemma agree_pipeline (funcs1 funcs2 : list stage) :
  Forall2 (λ f1 f2 : stage, ∀ arg, agree (f1 arg) (f2 arg)) funcs1 funcs2 →
  ∀ arg, agree (vasync_pipeline funcs1 arg) (vasync_pipeline funcs2 arg).
Proof.
  induction 1 as [|f1 f2 funcs1 funcs2 Hf _ IH]; intros arg; simpl.
  - apply agree_refl.
  - apply agree_bind; [apply Hf|].
    intros [err|arg']; [apply agree_refl | apply IH].
Qed.

Lemma agree_operatorMail subject text :
  agree (operatorMail (with_mailer self mailer') subject text)
        (operatorMail self subject text).
Proof.
  intros st.
  rewrite !result_operatorMail, !exec_operatorMail, !emitted_operatorMail.
  split; [done|]. split; [done|]. simpl config.
  destruct (initialSync (config self)); [done|].
  change (operator_message (with_mailer self mailer') subject text)
    with (operator_message self subject text).
  simpl mailer.
  by destruct (mailer' _), (mailer self _).
Qed.

Lemma agree_userMail to subject text :
  agree (userMail (with_mailer self mailer') to subject text)
        (userMail self to subject text).
Proof.
  intros st.
  rewrite !result_userMail, !exec_userMail, !emitted_userMail.
  split; [done|]. split; [done|]. simpl config.
  destruct (initialSync (config self)); [done|].
  change (user_message (with_mailer self mailer') to subject text)
    with (user_message self to subject text).
  simpl mailer.
  by destruct (mailer' _), (mailer self _).
Qed.
End Agree.

Ltac agree_step :=
  match goal with
  | |- agree (operatorMail _ _ _) (operatorMail _ _ _) =>
      apply agree_operatorMail
  | |- agree (userMail _ _ _ _) (userMail _ _ _ _) => apply agree_userMail
  | |- agree (when_ _ _) (when_ _ _) => apply agree_when
  | |- agree (vasync_pipeline _ _) (vasync_pipeline _ _) =>
      apply agree_pipeline
  | |- agree (_ ≫= _) (_ ≫= _) => apply agree_bind; [|intros ?]
  | |- agree (match ?x with _ => _ end) (match ?x with _ => _ end) =>
      destruct x
  | |- Forall2 _ [] [] => apply Forall2_nil_2
  | |- Forall2 _ (_ :: _) (_ :: _) => apply Forall2_cons_2; [intros ?|]
  | |- agree _ _ => exact (agree_refl _)
  end.

Lemma handle_agree (self : Notifier) (mailer' : mail → string + string)
    (n : notification) :
  agree (handle (with_mailer self mailer') n) (handle self n).
Proof.
  destruct n; simpl handle;
    unfold readerAdded, roleoperAdded, readerRemoved, roleoperRemoved,
      ufdsKeyMismatch, changedLogin, changedPassword, changedEmail,
      deletedUser, addedKey, addedKey_stages, getUser, findKeys,
      getOtherUsers, sendMail, deletedKey, operatorAdded, operatorRemoved,
      weirdGroupMemberAdded, weirdGroupMemberRemoved;
    repeat agree_step.
Qed.

Lemma omap_without_delivery_logs {B} (f : event → option B)
    (tr : list event) :
  (∀ e, is_delivery_log e = true → f e = None) →
  omap f (without_delivery_logs tr) = omap f tr.
Proof.
  intros Hf. unfold without_delivery_logs.
  induction tr as [|e tr IH]; [done|].
  cbn [List.filter]. destruct (is_delivery_log e) eqn:He; cbn [negb].
  - cbn [omap list_omap]. by rewrite (Hf e He).
  - cbn [omap list_omap]. by rewrite IH.
Qed.

Lemma sent_mails_without_delivery_logs (tr : list event) :
  sent_mails (without_delivery_logs tr) = sent_mails tr ∧
  renders (without_delivery_logs tr) = renders tr.
Proof.
  unfold sent_mails, renders.
  split; apply omap_without_delivery_logs; by intros [].
Qed.

(** X18 (mail transport): a delivery failure stays in the log.  Whatever
    the transport answers to [sendMail], a handler ends with the same
    outcome, leaves the same state, renders the same templates and hands
    the same messages to the transport; only the log records of the
    deliveries differ.  A failed send stops neither the handler nor the
    other message of the same notification. *)
Theorem delivery_failure_changes_only_the_log
    (self : Notifier) (mailer' : mail → string + string)
    (n : notification) (st : state) :
  let self' := with_mailer self mailer' in
  result (handle self' n) st = result (handle self n) st ∧
  exec (handle self' n) st = exec (handle self n) st ∧
  without_delivery_logs (emitted (handle self' n) st) =
    without_delivery_logs (emitted (handle self n) st) ∧
  sent_mails (emitted (handle self' n) st) =
    sent_mails (emitted (handle self n) st) ∧
  renders (emitted (handle self' n) st) =
    renders (emitted (handle self n) st).
Proof.
  intros self'. subst self'.
  destruct (handle_agree self mailer' n st) as (Hres & Hex & Hem).
  split; [done|]. split; [done|]. split; [done|].
  destruct (sent_mails_without_delivery_logs
              (emitted (handle (with_mailer self mailer') n) st))
    as (<- & <-).
  destruct (sent_mails_without_delivery_logs (emitted (handle self n) st))
    as (<- & <-).
  by rewrite Hem.
Qed.

(** ** Lookups issued by the handlers *)

(** X19 (every handler that starts with a lookup): when the first lookup of
    a handler fails, the handler logs 'failed reading from db' once and
    stops: it returns normally, renders nothing, calls no mail helper and
    issues no further lookup. *)
Theorem first_lookup_failure_aborts
    (self : Notifier) (n : notification) (st : state) :
  looks_up n = true →
  db_faults self (db_lookups st) = true →
  emitted (handle self n) st =
    [ELogError "failed reading from db" ["SQLITE_ERROR"]] ∧
  result (handle self n) st = Done tt ∧
  exec (handle self n) st = bump st.
Proof.
  intros Hn Hfail.
  split; [by apply first_lookup_failure_logged|].
  destruct n; try discriminate Hn; simpl handle;
    unfold readerAdded, roleoperAdded, readerRemoved, roleoperRemoved,
      ufdsKeyMismatch, changedLogin, changedPassword, changedEmail, addedKey,
      addedKey_stages, getUser, deletedKey, operatorAdded, operatorRemoved;
    simpl vasync_pipeline; run; rewrite Hfail; run; done.
Qed.

Lemma first_lookup_failure_aborts_witness :
  emitted (handle flaky_self (EmailChanged 0 "u-bob" "b@example.com"
                                "b2@example.com")) (bump sample_state) =
    [ELogError "failed reading from db" ["SQLITE_ERROR"]] ∧
  result (handle flaky_self (EmailChanged 0 "u-bob" "b@example.com"
                               "b2@example.com")) (bump sample_state) =
    Done tt ∧
  exec (handle flaky_self (EmailChanged 0 "u-bob" "b@example.com"
                             "b2@example.com")) (bump sample_state) =
    bump (bump sample_state).
Proof.
  apply (first_lookup_failure_aborts flaky_self
           (EmailChanged 0 "u-bob" "b@example.com" "b2@example.com")
           (bump sample_state)).
  - reflexivity.
  - reflexivity.
Defined.

Lemma db_lookups_iter_bump (n : nat) (st : state) :
  db_lookups (Nat.iter n bump st) = n + db_lookups st.
Proof. induction n as [|n IH]; [done|]. simpl. by rewrite IH. Qed.

Lemma sendMail_keeps_lookups (self : Notifier) when uuid key name otherKeys
    arg (n : nat) :
  keeps (λ st, db_lookups st = n)
        (sendMail self when uuid key name otherKeys arg).
Proof.
  unfold sendMail. repeat (keeps_step; try done).
Qed.

(** X20 (addedKey): the fan-out costs one lookup per other holder.  When
    every lookup succeeds and every other holder of the key has a [users]
    row, the key-added handler issues exactly two lookups plus one per
    other holder; with no other holder it issues two and renders with an
    empty [otherLocations]. *)
Theorem key_added_lookup_count
    (self : Notifier) (st : state) (when : Z) (uuid : string) (key : sshkey)
    (name : string) (otherKeys : list sshkey) (user : user_row) :
  let m := addedKey self when uuid key name otherKeys in
  db_reliable self →
  stored_user st uuid = Some user →
  Forall (λ l, is_Some (stored_user st (loc_uuid l))) (holders st key uuid) →
  db_lookups (exec m st) =
    db_lookups st + 2 + length (holders st key uuid) ∧
  (holders st key uuid = [] →
   rendered_locations (emitted m st) =
     VLocations [] :: (if privileged user then [VLocations []] else [])).
Proof.
  intros m Hrel Hrow Hall. subst m. split.
  - set (st3 := Nat.iter (length (holders st key uuid)) bump (bump (bump st))).
    pose proof (sendMail_keeps_lookups self when uuid key name otherKeys
                  (PipeArg (Some user)
                     (Some (map (join_user st) (holders st key uuid))))
                  (db_lookups st3) st3 eq_refl) as Hkeep.
    destruct (sendMail_never_throws self when uuid key name otherKeys user
                (Some (map (join_user st) (holders st key uuid))) st3)
      as [a Hres].
    unfold addedKey, addedKey_stages. simpl vasync_pipeline.
    unfold exec, result in *. unfold mbind, M_bind, bind.
    rewrite getUser_run, Hrow by apply Hrel.
    rewrite findKeys_run by apply Hrel.
    rewrite (getOtherUsers_run self (bump (bump st))) by done.
    change (holders (bump st) key uuid) with (holders st key uuid).
    change (join_user (bump (bump st))) with (join_user st).
    fold st3. simpl pa_user.
    destruct (sendMail _ _ _ _ _ _ _ st3) as [[r st4] tr].
    simpl in Hkeep, Hres. subst r. destruct a as [err|arg']; simpl;
      rewrite Hkeep; unfold st3; rewrite db_lookups_iter_bump; simpl; lia.
  - intros Hnone.
    destruct (addedKey_rendered self st when uuid key name otherKeys user
                Hrel Hrow Hall) as [_ Hlocs].
    by rewrite Hnone in Hlocs.
Qed.

Lemma key_added_lookup_count_witness :
  db_lookups (exec (addedKey sample_self 0 "u-alice" sample_key "laptop" [])
                   sample_state) = 4.
Proof.
  destruct (key_added_lookup_count sample_self sample_state 0 "u-alice"
              sample_key "laptop" [] alice) as [Hcount _].
  - intros n. reflexivity.
  - reflexivity.
  - repeat constructor; by eexists.
  - exact Hcount.
Defined.

(** ** Who can be written to *)

(** X21 (all handlers): only the password-changed, email-changed, key-added
    and key-deleted handlers can write to a user.  Every other handler,
    from every state and whatever the row store answers, never calls
    [userMail], and every message it hands to the transport is addressed
    to the operators. *)
Theorem other_handlers_never_mail_users
    (self : Notifier) (n : notification) (st : state) :
  may_mail_user n = false →
  no_user_mail self (emitted (handle self n) st).
Proof.
  intros Hn. apply operator_only_no_user_mail.
  revert st. change (emits (operator_only self) (handle self n)).
  destruct n; try discriminate Hn; emits_unfold;
    repeat emits_step; done.
Qed.

Lemma other_handlers_never_mail_users_witness :
  no_user_mail sample_self
    (emitted (handle sample_self
                (LoginChanged 0 "u-alice" "alice" "alicia" "a@example.com"))
             sample_state).
Proof.
  apply (other_handlers_never_mail_users sample_self
           (LoginChanged 0 "u-alice" "alice" "alicia" "a@example.com")
           sample_state).
  reflexivity.
Defined.

(** ** No incomplete list of other holders *)

Section Complete.
Context (self : Notifier).

Lemma forEach_fetch_done (locs out : list location) st :
  result (vasync_forEachPipeline (fetchOtherUser self) locs) st =
    Done (inr out) →
  out = map (join_user st) locs ∧
  Forall (λ l, is_Some (stored_user st (loc_uuid l))) locs.
Proof.
  revert st out. induction locs as [|l locs IH]; intros st out.
  - simpl. by intros [= <-].
  - simpl vasync_forEachPipeline. rewrite result_bind.
    destruct (fetchOtherUser_result self st l) as [-> ->].
    destruct (db_faults self (db_lookups st)); [done|].
    destruct (stored_user st (loc_uuid l)) as [row|] eqn:Hrow; [|done].
    rewrite result_bind.
    destruct (result (vasync_forEachPipeline _ locs) (bump st))
      as [[err|rest]|e'] eqn:Hrest; [done| |done].
    intros [= <-]. destruct (IH (bump st) rest Hrest) as [-> Hall].
    split; [done|]. apply Forall_cons. split; [by eexists | done].
Qed.

Lemma join_user_complete st (l : location) :
  is_Some (stored_user st (loc_uuid l)) →
  complete (join_user st l) ∧
  loc_uuid (join_user st l) = loc_uuid l ∧
  loc_name (join_user st l) = loc_name l.
Proof.
  intros [row Hrow]. unfold join_user, complete. rewrite Hrow. simpl.
  repeat split; by eexists.
Qed.

Lemma joined_lists_holders st0 st key uuid :
  Forall (λ l, is_Some (stored_user st (loc_uuid l))) (holders st0 key uuid) →
  lists_holders st0 key uuid
    (VLocations (map (join_user st) (holders st0 key uuid))).
Proof.
  intros Hall. eexists. split; [done|].
  induction Hall as [|l locs Hl _ (IH1 & IH2 & IH3)]; [done|].
  destruct (join_user_complete st l Hl) as (Hc & Hu & Hn).
  simpl. rewrite Hu, Hn, IH2, IH3. split; [|done]. by apply Forall_cons.
Qed.

Lemma nothing_emitted {A} (m : M A) :
  emits (λ _, False) m → ∀ st, emitted m st = [].
Proof.
  intros Hm st. specialize (Hm st).
  destruct (emitted m st) as [|e tr]; [done|].
  by apply Forall_cons in Hm as [[] _].
Qed.

Lemma findKeys_silent uuid key arg st :
  emitted (findKeys self uuid key arg) st = [].
Proof.
  apply nothing_emitted. unfold findKeys, db_all_keys_by_fingerprint.
  repeat emits_step.
Qed.

Lemma getOtherUsers_silent arg st : emitted (getOtherUsers self arg) st = [].
Proof.
  apply nothing_emitted. unfold getOtherUsers, fetchOtherUser, db_get_user.
  repeat emits_step.
Qed.

Lemma getUser_emitted uuid arg st :
  renders (emitted (getUser self uuid arg) st) = [].
Proof.
  unfold getUser, db_get_user, log_db_error. run.
  destruct (db_faults self (db_lookups st)); run; [done|].
  by destruct (find _ (db_users st)); run.
Qed.
End Complete.

(** X22 (addedKey): no partial list reaches a template.  Whatever the row
    store holds and whichever lookups fail, every value the key-added
    handler hands to a template as [otherLocations] lists all the other
    holders of the key, in the order of the [keys] query, each with login
    and email. *)
Theorem rendered_locations_are_complete
    (self : Notifier) (st : state) (when : Z) (uuid : string) (key : sshkey)
    (name : string) (otherKeys : list sshkey) :
  Forall (lists_holders st key uuid)
    (rendered_locations (emitted (addedKey self when uuid key name otherKeys)
                                 st)).
Proof.
  unfold addedKey, addedKey_stages. rewrite emitted_then_ret.
  simpl vasync_pipeline. unfold rendered_locations.
  rewrite emitted_bind.
  pose proof (getUser_emitted self uuid (PipeArg None None) st) as Hget.
  destruct (getUser_result self st uuid (PipeArg None None)) as [-> ->].
  assert (∀ tr, renders tr = [] →
            Forall (lists_holders st key uuid)
              (omap (λ r : string * tplargs, r.2 !! "otherLocations")
                    (renders tr))) as Hnone.
  { intros tr ->. done. }
  destruct (db_faults self (db_lookups st)).
  { rewrite emitted_ret, app_nil_r. by apply Hnone. }
  destruct (stored_user st uuid) as [row|].
  2:{ rewrite emitted_ret, app_nil_r. by apply Hnone. }
  simpl pa_otherLocations. rewrite emitted_bind, findKeys_silent.
  destruct (findKeys_result self (bump st) uuid key (PipeArg (Some row) None))
    as [-> ->].
  destruct (db_faults self (db_lookups (bump st))).
  { rewrite emitted_ret, !app_nil_r. by apply Hnone. }
  simpl pa_user. change (holders (bump st) key uuid) with (holders st key uuid).
  rewrite emitted_bind, getOtherUsers_silent.
  unfold getOtherUsers at 1. simpl pa_otherLocations. cbv beta iota.
  rewrite result_bind.
  destruct (result (vasync_forEachPipeline _ (holders st key uuid))
                   (bump (bump st))) as [[err|out]|e] eqn:Hres;
    rewrite ?result_ret.
  { rewrite emitted_ret, !app_nil_r. by apply Hnone. }
  2:{ rewrite !app_nil_r. by apply Hnone. }
  apply forEach_fetch_done in Hres as [-> Hall]. simpl pa_user.
  rewrite emitted_bind.
  destruct (sendMail_run self
              (exec (getOtherUsers self
                       (PipeArg (Some row) (Some (holders st key uuid))))
                    (bump (bump st)))
              when uuid key name otherKeys row
              (Some (map (join_user (bump (bump st))) (holders st key uuid))))
    as (text & oper_text & -> & ->).
  rewrite emitted_ret, app_nil_r, emitted_userMail, emitted_operatorMail.
  unfold renders in Hget |- *. rewrite omap_app, Hget. simpl app.
  pose proof (joined_lists_holders st (bump (bump st)) key uuid Hall)
    as Hlists.
  destruct (whitelisted self uuid && negb (disabled row)), (privileged row);
    mail_cases; simpl; rewrite ?added_key_other_locations;
    repeat constructor; done.
Qed.

(** ** The key-added handler, stage by stage *)

Section Stages.
Context (self : Notifier).
Implicit Types (st : state) (arg : pipearg) (uuid : string) (key : sshkey).

Lemma fetchOtherUser_silent loc st : emitted (fetchOtherUser self loc) st = [].
Proof.
  apply nothing_emitted. unfold fetchOtherUser, db_get_user.
  repeat emits_step.
Qed.

Lemma forEach_fetch_silent (locs : list location) st :
  emitted (vasync_forEachPipeline (fetchOtherUser self) locs) st = [].
Proof.
  apply nothing_emitted. unfold fetchOtherUser, db_get_user.
  repeat emits_step.
Qed.




End Stages.



(** X15 (addedKey, lookup stages): the stages getUser, findKeys and
    getOtherUsers, which call no template, end with an exception only
    through the TypeError of [fetchOtherUser]: whichever lookups fail, an
    exception means that the subject was found, that the [keys] query
    succeeded and that one of the other holders it returned has no [users]
    row.  So when every other holder has a row these stages never throw,
    also over a row store that fails. *)
Theorem lookup_stages_throw_only_for_a_missing_holder
    (self : Notifier) (st : state) (uuid : string) (key : sshkey)
    (e : string) :
  result (vasync_pipeline (lookup_stages self uuid key) (PipeArg None None))
         st = Throw e →
  e = "TypeError: Cannot read property 'login' of undefined" ∧
  is_Some (stored_user st uuid) ∧
  db_faults self (db_lookups st) = false ∧
  db_faults self (S (db_lookups st)) = false ∧
  Exists (λ l, stored_user st (loc_uuid l) = None) (holders st key uuid).
Proof.
  unfold lookup_stages. simpl vasync_pipeline. rewrite result_bind.
  destruct (getUser_result self st uuid (PipeArg None None)) as [-> ->].
  destruct (db_faults self (db_lookups st)); [done|].
  destruct (stored_user st uuid) as [row|]; [|done].
  simpl pa_otherLocations. rewrite result_bind.
  destruct (findKeys_result self (bump st) uuid key (PipeArg (Some row) None))
    as [-> ->].
  simpl db_lookups.
  destruct (db_faults self (S (db_lookups st))); [done|].
  simpl pa_user. change (holders (bump st) key uuid) with (holders st key uuid).
  rewrite result_bind.
  pose proof (getOtherUsers_result self (bump (bump st)) (Some row)
                (holders st key uuid)) as Hget.
  destruct (result (getOtherUsers self _) (bump (bump st)))
    as [[err|arg']|e'] eqn:Hres; [done..|].
  intros [= <-]. destruct Hget as [-> Hex].
  repeat split; [by eexists | exact Hex].
Qed.

Lemma lookup_stages_throw_only_for_a_missing_holder_witness :
  is_Some (stored_user orphan_state "u-alice") ∧
  Exists (λ l, stored_user orphan_state (loc_uuid l) = None)
         (holders orphan_state sample_key "u-alice").
Proof.
  destruct (lookup_stages_throw_only_for_a_missing_holder flaky4_self
              orphan_state "u-alice" sample_key
              "TypeError: Cannot read property 'login' of undefined")
    as (_ & Hsubject & _ & _ & Hmissing).
  - reflexivity.
  - split; [exact Hsubject | exact Hmissing].
Defined.
